(** * convert_to_openelections.py: a shallow embedding and its properties

    Text is modelled as a list of characters whose code points lie in
    0..255, the range that the latin-1 fallback of the reader produces
    (ASCII included).  On that range the character classes of the Python
    runtime are finite and written out below: [isspace] is
    [str.isspace] (also the class behind the regular expression escape
    for white space), [int_space] the narrower class that the integer
    constructor skips, and the decimal digits are the ten ASCII ones.

    The csv module and line iteration are library code: the extractors
    are modelled from the rows that [csv.reader] yields and from the
    lines that iterating an open file yields. *)

From Stdlib Require Import List String Ascii ZArith NArith Lia Bool Arith.
Import ListNotations.

Set Implicit Arguments.

(** ** Python strings *)

Module Py.

Definition str := list ascii.

Definition lit (s : string) : str := list_ascii_of_string s.

Definition code (c : ascii) : N := N_of_ascii c.

Definition dquote : ascii := ascii_of_nat 34.
Definition newline : ascii := ascii_of_nat 10.

Definition in_range (lo hi : N) (c : ascii) : bool :=
  (N.leb lo (code c) && N.leb (code c) hi)%bool.

(** [str.isspace] on one character: TAB..CR, FS..US, space, NEL, NBSP. *)
Definition isspace (c : ascii) : bool :=
  in_range 9 13 c || in_range 28 32 c
  || N.eqb (code c) 133 || N.eqb (code c) 160.

(** White space as [int()] sees it: code points below 127 are read with
    the C locale table (TAB..CR and space), the others are first turned
    into a space when [str.isspace] holds for them. *)
Definition int_space (c : ascii) : bool :=
  in_range 9 13 c || N.eqb (code c) 32
  || N.eqb (code c) 133 || N.eqb (code c) 160.

Definition is_digit (c : ascii) : bool := in_range 48 57 c.

Definition digit_value (c : ascii) : Z := Z.of_N (code c) - 48.

Fixpoint str_eqb (a b : str) : bool :=
  match a, b with
  | [], [] => true
  | x :: a', y :: b' => Ascii.eqb x y && str_eqb a' b'
  | _, _ => false
  end.

(** Truth value of a string: non-empty. *)
Definition truthy (s : str) : bool :=
  match s with [] => false | _ :: _ => true end.

Fixpoint lstrip_by (p : ascii -> bool) (s : str) : str :=
  match s with
  | [] => []
  | c :: t => if p c then lstrip_by p t else s
  end.

Definition rstrip_by (p : ascii -> bool) (s : str) : str :=
  rev (lstrip_by p (rev s)).

Definition strip_by (p : ascii -> bool) (s : str) : str :=
  rstrip_by p (lstrip_by p s).

(** [s.strip()], [s.rstrip()] *)
Definition strip (s : str) : str := strip_by isspace s.
Definition rstrip (s : str) : str := rstrip_by isspace s.

(** [s.strip(chars)] *)
Definition strip_chars (chars : str) (s : str) : str :=
  strip_by (fun c => existsb (Ascii.eqb c) chars) s.

Definition strip_quote (s : str) : str := strip_chars [dquote] s.

Fixpoint startswith (pre s : str) : bool :=
  match pre, s with
  | [], _ => true
  | p :: pre', c :: s' => Ascii.eqb p c && startswith pre' s'
  | _ :: _, [] => false
  end.

Definition endswith (suf s : str) : bool := startswith (rev suf) (rev s).

(** [sub in s] *)
Fixpoint contains (sub s : str) : bool :=
  startswith sub s ||
  match s with
  | [] => false
  | _ :: t => contains sub t
  end.

(** [s.replace(old, new)] for a one-character [old]. *)
Definition replace_char (old : ascii) (new : str) (s : str) : str :=
  flat_map (fun c => if Ascii.eqb c old then new else [c]) s.

(** [str.lower] on one character: A..Z and the capital letters
    U+00C0..U+00DE other than the multiplication sign. *)
Definition lower_char (c : ascii) : ascii :=
  if in_range 65 90 c
     || (in_range 192 222 c && negb (N.eqb (code c) 215))
  then ascii_of_N (code c + 32) else c.

Definition lower (s : str) : str := map lower_char s.

(** [str.upper] yields code points: the capitals of the micro sign and of
    y with diaeresis lie above U+00FF, and sharp s becomes two letters. *)
Definition upper_char (c : ascii) : list N :=
  let n := code c in
  if in_range 97 122 c
     || (in_range 224 254 c && negb (N.eqb n 247))
  then [n - 32]%N
  else if N.eqb n 223 then [83; 83]%N
  else if N.eqb n 181 then [924]%N
  else if N.eqb n 255 then [376]%N
  else [n].

Definition upper (s : str) : list N := flat_map upper_char s.

Definition codes (s : str) : list N := map code s.

Fixpoint codes_eqb (a b : list N) : bool :=
  match a, b with
  | [], [] => true
  | x :: a', y :: b' => N.eqb x y && codes_eqb a' b'
  | _, _ => false
  end.

(** [s.zfill(width)] *)
Definition zfill (width : nat) (s : str) : str :=
  if width <=? List.length s then s
  else
    let fill := repeat "0"%char (width - List.length s) in
    match s with
    | c :: t =>
        if Ascii.eqb c "+" || Ascii.eqb c "-" then c :: fill ++ t
        else fill ++ s
    | [] => fill
    end.

(** [s.split(sep)] for a one-character separator. *)
Fixpoint split_on (sep : ascii) (s : str) : list str :=
  match s with
  | [] => [[]]
  | c :: t =>
      if Ascii.eqb c sep then [] :: split_on sep t
      else match split_on sep t with
           | h :: r => (c :: h) :: r
           | [] => [[c]]
           end
  end.

(** [sep.join(parts)] *)
Fixpoint join (sep : str) (parts : list str) : str :=
  match parts with
  | [] => []
  | [p] => p
  | p :: rest => p ++ sep ++ join sep rest
  end.

(** *** [int(s)] in base ten

    Optional white space, an optional sign, decimal digits with single
    underscores allowed between two digits, optional white space.  A
    literal of more than [int_max_str_digits] digits is refused, as the
    interpreter does by default. *)

Definition int_max_str_digits : N := 4300.

Inductive scan_prev := AtStart | AfterDigit | AfterUnderscore.

Definition scan_finish (prev : scan_prev) (acc : Z) (rest : str)
  : option (Z * str) :=
  match prev with
  | AfterDigit => Some (acc, rest)
  | _ => None
  end.

Fixpoint scan_digits (prev : scan_prev) (acc : Z) (s : str)
  : option (Z * str) :=
  match s with
  | [] => scan_finish prev acc []
  | c :: t =>
      if is_digit c then
        scan_digits AfterDigit (10 * acc + digit_value c) t
      else if Ascii.eqb c "_" then
        match prev with
        | AfterDigit => scan_digits AfterUnderscore acc t
        | _ => None
        end
      else scan_finish prev acc s
  end.

(** The digits counted against the cap are those of the literal; what
    follows it is white space when the literal is accepted, so they are
    the digits of the whole text. *)
Definition int_unsigned (s : str) : option Z :=
  match scan_digits AtStart 0 s with
  | Some (v, rest) =>
      match lstrip_by int_space rest with
      | [] =>
          if N.ltb int_max_str_digits
                   (N.of_nat (List.length (filter is_digit s)))
          then None else Some v
      | _ :: _ => None
      end
  | None => None
  end.

(** [None] stands for [ValueError]. *)
Definition int (s : str) : option Z :=
  match lstrip_by int_space s with
  | c :: t =>
      if Ascii.eqb c "-" then option_map Z.opp (int_unsigned t)
      else if Ascii.eqb c "+" then int_unsigned t
      else int_unsigned (c :: t)
  | [] => None
  end.

End Py.

(** ** The regular expressions of the script

    Each pattern is a chain of matchers in continuation style; a matcher
    takes the text at the current position and yields what the whole
    match leaves unconsumed.  The white-space runs are followed by a
    character that is not white space and the bracket class by a
    parenthesis that it excludes, so the greedy choice is the only one
    that can succeed; [re_search] tries the start positions from the
    left, as [re.search] and [re.sub] do.  Every pattern is anchored at
    the end, so [re.sub] replaces at most one match. *)

Module Re.
Import Py.

Definition matcher := str -> option str.

(** Letters under [re.I]: equal after lower-casing. *)
Definition ci_eqb (p c : ascii) : bool :=
  Ascii.eqb (lower_char p) (lower_char c).

Fixpoint ci_prefix (pat s : str) : option str :=
  match pat, s with
  | [], _ => Some s
  | p :: pat', c :: s' => if ci_eqb p c then ci_prefix pat' s' else None
  | _ :: _, [] => None
  end.

(** White space, zero or more. *)
Definition ws_star (k : matcher) : matcher :=
  fun s => k (lstrip_by isspace s).

(** White space, one or more. *)
Definition ws_plus (k : matcher) : matcher :=
  fun s =>
    match s with
    | c :: t => if isspace c then k (lstrip_by isspace t) else None
    | [] => None
    end.

Definition chr (a : ascii) (k : matcher) : matcher :=
  fun s =>
    match s with
    | c :: t => if Ascii.eqb c a then k t else None
    | [] => None
    end.

Definition lit_ci (pat : string) (k : matcher) : matcher :=
  fun s =>
    match ci_prefix (lit pat) s with
    | Some r => k r
    | None => None
    end.

(** The dollar anchor: the end of the text, or just before a newline
    that ends the text. *)
Definition eol : matcher :=
  fun s =>
    match s with
    | [] => Some []
    | [c] => if Ascii.eqb c newline then Some [c] else None
    | _ :: _ :: _ => None
    end.

(** Any characters but newline, then the dollar anchor. *)
Fixpoint dot_star_eol (s : str) : option str :=
  match s with
  | [] => Some []
  | c :: t =>
      if Ascii.eqb c newline then eol s else dot_star_eol t
  end.

(** Leftmost match: the text before it and what the match yields. *)
Fixpoint re_search (A : Type) (m : str -> option A) (s : str)
  : option (str * A) :=
  match m s with
  | Some a => Some ([], a)
  | None =>
      match s with
      | [] => None
      | c :: t =>
          match re_search m t with
          | Some (p, a) => Some (c :: p, a)
          | None => None
          end
      end
  end.

(** [re.sub(pattern, repl, s)] for a pattern anchored at the end. *)
Definition re_sub (m : matcher) (repl : str) (s : str) : str :=
  match re_search m s with
  | Some (p, rest) => p ++ repl ++ rest
  | None => s
  end.

(** The two suffix patterns of [normalize_office]. *)
Definition pat_vote_for : matcher :=
  ws_star (chr "-" (ws_star (lit_ci "Vote For" dot_star_eol))).

Definition pat_paren_vote_for : matcher :=
  ws_star (chr "-" (ws_star (lit_ci "(Vote for" dot_star_eol))).

(** The two suffix patterns of [normalize_county]. *)
Definition pat_county : matcher := ws_plus (lit_ci "County" eol).
Definition pat_city : matcher := ws_plus (lit_ci "city" eol).

Definition is_paren (c : ascii) : bool :=
  Ascii.eqb c "(" || Ascii.eqb c ")".

Fixpoint span_no_paren (s : str) : str * str :=
  match s with
  | [] => ([], [])
  | c :: t =>
      if is_paren c then ([], s)
      else let (g, r) := span_no_paren t in (c :: g, r)
  end.

(** The party group of [parse_candidate]: a parenthesised group without
    inner parentheses, white space, the end of the text.  Yields the
    contents of group 1. *)
Definition pat_party (s : str) : option str :=
  match s with
  | c :: t =>
      if Ascii.eqb c "(" then
        let (g, r) := span_no_paren t in
        match r with
        | d :: r' =>
            if Ascii.eqb d ")" then
              match lstrip_by isspace r' with
              | [] => Some g
              | _ :: _ => None
              end
            else None
        | [] => None
        end
      else None
  | [] => None
  end.

(** Replace every run of white space by one space. *)
Fixpoint collapse_from (in_run : bool) (s : str) : str :=
  match s with
  | [] => []
  | c :: t =>
      if isspace c then
        if in_run then collapse_from true t
        else " "%char :: collapse_from true t
      else c :: collapse_from false t
  end.

Definition collapse_ws (s : str) : str := collapse_from false s.

End Re.

(** ** Text normalizers *)

Import Py.

(** [d.get(k, default)] on a table with string keys. *)
Fixpoint table_get (d : list (string * string)) (k : str) (default : str)
  : str :=
  match d with
  | [] => default
  | (k', v) :: rest =>
      if str_eqb (lit k') k then lit v else table_get rest k default
  end.

Definition OFFICE_CLEANUPS : list (string * string) :=
  [ ("President and Vice President of the United States", "President");
    ("President / Vice President", "President");
    ("President - Vice Pres", "President");
    ("Governor / Lt. Governor", "Governor") ]%string.

Definition COUNTY_FIXES : list (string * string) :=
  [ ("Prince George`s", "Prince George's");
    ("Queen Anne`s", "Queen Anne's");
    ("St. Mary`s", "St. Mary's") ]%string.

Definition COUNTY_CODE_TO_NAME : list (string * string) :=
  [ ("01", "Allegany"); ("02", "Anne Arundel"); ("03", "Baltimore City");
    ("04", "Baltimore"); ("05", "Calvert"); ("06", "Caroline");
    ("07", "Carroll"); ("08", "Cecil"); ("09", "Charles");
    ("10", "Dorchester"); ("11", "Frederick"); ("12", "Garrett");
    ("13", "Harford"); ("14", "Howard"); ("15", "Kent");
    ("16", "Montgomery"); ("17", "Prince George's");
    ("18", "Queen Anne's"); ("19", "St. Mary's"); ("20", "Somerset");
    ("21", "Talbot"); ("22", "Washington"); ("23", "Wicomico");
    ("24", "Worcester") ]%string.

Definition normalize_office (raw : str) : str :=
  let office := strip_quote (strip raw) in
  let office := Re.re_sub Re.pat_vote_for [] office in
  let office := Re.re_sub Re.pat_paren_vote_for [] office in
  let office := strip_chars (lit " -") office in
  table_get OFFICE_CLEANUPS office office.

Definition parse_candidate (cell : str) : str * str * str :=
  let text := strip_quote (strip cell) in
  let winner := if endswith (lit " Winner") text then lit "TRUE" else [] in
  let text :=
    if endswith (lit " Winner") text
    then rstrip (firstn (List.length text - 7) text)
    else text in
  let '(candidate, party) :=
    match Re.re_search Re.pat_party text with
    | Some (before, group1) => (strip before, strip group1)
    | None => (text, [])
    end in
  let candidate := strip (Re.collapse_ws candidate) in
  let party := strip (Re.collapse_ws party) in
  (candidate, party, winner).

Definition normalize_county (raw : str) : str :=
  let county := strip (strip_quote (strip raw)) in
  let county := Re.re_sub Re.pat_county [] county in
  let county := Re.re_sub Re.pat_city (lit " City") county in
  let county := table_get COUNTY_FIXES county county in
  replace_char "`" (lit "'") county.

(** ** The encoding-tolerant reader

    File contents are bytes, decoded text a list of code points.
    [Path.read_text] decodes the whole file and then translates the
    carriage-return line ends, as text mode does by default. *)

Module Reader.

Definition bytes := list Byte.byte.
Definition text := list N.

Inductive encoding := utf_8_sig | cp1252 | latin_1.

Definition continuation (n : N) : bool := (N.leb 128 n && N.leb n 191)%bool.

Definition between (lo hi n : N) : bool := (N.leb lo n && N.leb n hi)%bool.

(** Strict UTF-8: shortest forms only, no surrogates, nothing above
    U+10FFFF. *)
Fixpoint utf_8_decode (bs : bytes) : option text :=
  match bs with
  | [] => Some []
  | x0 :: r0 =>
      let b0 := Byte.to_N x0 in
      if N.ltb b0 128 then option_map (cons b0) (utf_8_decode r0)
      else if between 194 223 b0 then
        match r0 with
        | x1 :: r1 =>
            let b1 := Byte.to_N x1 in
            if continuation b1
            then option_map (cons ((b0 - 192) * 64 + (b1 - 128))%N)
                            (utf_8_decode r1)
            else None
        | [] => None
        end
      else if between 224 239 b0 then
        match r0 with
        | x1 :: x2 :: r2 =>
            let b1 := Byte.to_N x1 in
            let b2 := Byte.to_N x2 in
            let lo := if N.eqb b0 224 then 160%N else 128%N in
            let hi := if N.eqb b0 237 then 159%N else 191%N in
            if between lo hi b1 && continuation b2
            then option_map
                   (cons ((b0 - 224) * 4096 + (b1 - 128) * 64 + (b2 - 128))%N)
                   (utf_8_decode r2)
            else None
        | _ => None
        end
      else if between 240 244 b0 then
        match r0 with
        | x1 :: x2 :: x3 :: r3 =>
            let b1 := Byte.to_N x1 in
            let b2 := Byte.to_N x2 in
            let b3 := Byte.to_N x3 in
            let lo := if N.eqb b0 240 then 144%N else 128%N in
            let hi := if N.eqb b0 244 then 143%N else 191%N in
            if between lo hi b1 && continuation b2 && continuation b3
            then option_map
                   (cons ((b0 - 240) * 262144 + (b1 - 128) * 4096
                          + (b2 - 128) * 64 + (b3 - 128))%N)
                   (utf_8_decode r3)
            else None
        | _ => None
        end
      else None
  end.

(** A leading byte-order mark EF BB BF is dropped.  A file of fewer
    than three bytes that begin the mark (EF, or EF BB) is held back by
    the text-mode decoder as a mark still to be completed, and reads as
    the empty text. *)
Definition utf_8_sig_decode (bs : bytes) : option text :=
  match bs with
  | [] => utf_8_decode bs
  | [x0] =>
      if N.eqb (Byte.to_N x0) 239 then Some [] else utf_8_decode bs
  | [x0; x1] =>
      if (N.eqb (Byte.to_N x0) 239 && N.eqb (Byte.to_N x1) 187)%bool
      then Some [] else utf_8_decode bs
  | x0 :: x1 :: x2 :: rest =>
      if (N.eqb (Byte.to_N x0) 239 && N.eqb (Byte.to_N x1) 187
          && N.eqb (Byte.to_N x2) 191)%bool
      then utf_8_decode rest
      else utf_8_decode bs
  end.

(** Code page 1252, bytes 80..9F; five of them are undefined. *)
Definition cp1252_high : list (option N) :=
  [ Some 8364; None; Some 8218; Some 402; Some 8222; Some 8230; Some 8224;
    Some 8225; Some 710; Some 8240; Some 352; Some 8249; Some 338; None;
    Some 381; None; None; Some 8216; Some 8217; Some 8220; Some 8221;
    Some 8226; Some 8211; Some 8212; Some 732; Some 8482; Some 353;
    Some 8250; Some 339; None; Some 382; Some 376 ]%N.

Definition cp1252_char (b : N) : option N :=
  if between 128 159 b then nth (N.to_nat (b - 128)) cp1252_high None
  else Some b.

Fixpoint cp1252_decode (bs : bytes) : option text :=
  match bs with
  | [] => Some []
  | x :: rest =>
      match cp1252_char (Byte.to_N x), cp1252_decode rest with
      | Some c, Some t => Some (c :: t)
      | _, _ => None
      end
  end.

Definition latin_1_decode (bs : bytes) : text := map Byte.to_N bs.

(** [bytes.decode(encoding)]; [None] stands for [UnicodeDecodeError]. *)
Definition decode (enc : encoding) (bs : bytes) : option text :=
  match enc with
  | utf_8_sig => utf_8_sig_decode bs
  | cp1252 => cp1252_decode bs
  | latin_1 => Some (latin_1_decode bs)
  end.

Fixpoint universal_newlines (t : text) : text :=
  match t with
  | [] => []
  | c :: rest =>
      if N.eqb c 13 then
        10%N :: match rest with
                | d :: rest' =>
                    if N.eqb d 10 then universal_newlines rest'
                    else universal_newlines rest
                | [] => []
                end
      else c :: universal_newlines rest
  end.

Definition read_text (enc : encoding) (bs : bytes) : option text :=
  option_map universal_newlines (decode enc bs).

(** How a call of [read_text_with_fallback] ends. *)
Inductive outcome :=
| ReturnInLoop (enc : encoding) (t : text)
| ReturnAfterLoop (t : text)
| RaiseUnicodeDecodeError.

Fixpoint try_encodings (encs : list encoding) (bs : bytes)
  : option (encoding * text) :=
  match encs with
  | [] => None
  | enc :: rest =>
      match read_text enc bs with
      | Some t => Some (enc, t)
      | None => try_encodings rest bs
      end
  end.

Definition read_text_with_fallback (bs : bytes) : outcome :=
  match try_encodings [utf_8_sig; cp1252; latin_1] bs with
  | Some (enc, t) => ReturnInLoop enc t
  | None =>
      match read_text utf_8_sig bs with
      | Some t => ReturnAfterLoop t
      | None => RaiseUnicodeDecodeError
      end
  end.

End Reader.

(** ** The canonical row and the three extractors *)

Record Row := mkRow {
  county : str;
  precinct : str;
  office : str;
  district : str;
  party : str;
  candidate : str;
  votes : Z;
  winner : str
}.

(** One row of [csv.reader]: the list of its cells. *)
Definition csv_row := list str.

(** *** Pivoted-legacy extractor, [convert_csv_style_file] *)

Definition markers : list string :=
  [ "Vote For"; "Vote for"; "Vote For One"; "Vote For One Pair";
    "Vote for One Pair" ]%string.

Definition candidate_header := (str * str * str)%type.

(** The loop state: [office] ([None] at the start), [candidates] and
    [rows_out]. *)
Record legacy_state := mkLegacy {
  cur_office : option str;
  cur_candidates : list candidate_header;
  rows_out : list Row
}.

Definition legacy_init : legacy_state := mkLegacy None [] [].

(** Truth value of [office]: neither [None] nor empty. *)
Definition office_truthy (o : option str) : bool :=
  match o with
  | Some s => truthy s
  | None => false
  end.

Definition office_text (o : option str) : str :=
  match o with
  | Some s => s
  | None => []
  end.

Definition is_marker_row (first : str) (row : csv_row) : bool :=
  truthy first
  && (List.length (filter truthy (tl row)) <=? 1)
  && existsb (fun m => contains (lit m) first) markers.

(** One cell of a candidate header row. *)
Definition header_cell (cell : str) : list candidate_header :=
  let cell := strip cell in
  if negb (truthy cell) then []
  else
    let '(candidate, party, winner) := parse_candidate cell in
    if truthy candidate then [(candidate, party, winner)] else [].

(** [enumerate(candidates, start=1)] *)
Definition enumerate1 (A : Type) (l : list A) : list (nat * A) :=
  combine (seq 1 (List.length l)) l.

(** The vote cell as it is handed to [int]: [None] when the cell is
    blank. *)
Definition clean_vote_cell (cell : str) : option str :=
  let vote_cell := strip_quote (strip cell) in
  if str_eqb vote_cell [] then None
  else Some (replace_char "," [] vote_cell).

(** One candidate position of a county row: the row appended, if any. *)
Definition emit_vote (county office : str) (row : csv_row)
           (entry : nat * candidate_header) : list Row :=
  let '(idx, (candidate, party, winner)) := entry in
  if List.length row <=? idx then []
  else
    match clean_vote_cell (nth idx row []) with
    | None => []
    | Some vote_cell =>
        match Py.int vote_cell with
        | Some v => [mkRow county [] office [] party candidate v winner]
        | None => []
        end
    end.

Definition legacy_step (st : legacy_state) (raw_row : csv_row)
  : legacy_state :=
  let row := map strip raw_row in
  if negb (existsb truthy row) then st
  else
    let first := strip (strip_quote (nth 0 row [])) in
    if is_marker_row first row then
      mkLegacy (Some (normalize_office first)) [] (rows_out st)
    else if negb (truthy first) && office_truthy (cur_office st) then
      mkLegacy (cur_office st) (flat_map header_cell (tl row)) (rows_out st)
    else if office_truthy (cur_office st)
            && negb (Nat.eqb (List.length (cur_candidates st)) 0)
            && truthy first then
      let county := normalize_county first in
      mkLegacy (cur_office st) (cur_candidates st)
               (rows_out st
                ++ flat_map (emit_vote county (office_text (cur_office st)) row)
                            (enumerate1 (cur_candidates st)))
    else st.

Definition convert_csv_style_file (rows : list csv_row) : list Row :=
  rows_out (fold_left legacy_step rows legacy_init).

(** *** Pipe-delimited extractor, [convert_pipe_style_file] *)

Definition NULL : str := lit "\N".

Definition pipe_line (line : str) : list Row :=
  let raw := rstrip_by (Ascii.eqb newline) line in
  if negb (truthy (strip raw)) then []
  else
    let parts := map strip (split_on "|" raw) in
    if List.length parts <? 10 then []
    else
      let office_raw := nth 0 parts [] in
      let county_raw := nth 2 parts [] in
      let last := nth 3 parts [] in
      let middle := nth 4 parts [] in
      let first := nth 5 parts [] in
      let party := nth 6 parts [] in
      let winner_flag := nth 7 parts [] in
      let votes_raw := nth 9 parts [] in
      if str_eqb votes_raw [] || str_eqb votes_raw NULL then []
      else
        match Py.int (replace_char "," [] votes_raw) with
        | None => []
        | Some v =>
            let name_parts :=
              filter (fun x => truthy x && negb (str_eqb x NULL))
                     [first; middle; last] in
            let candidate := strip (join (lit " ") name_parts) in
            let candidate :=
              if negb (truthy candidate) then lit "Unknown" else candidate in
            let candidate :=
              if str_eqb (lower candidate) (lit "other write-ins")
                 || str_eqb (lower last) (lit "zz998")
              then lit "Other Write-Ins" else candidate in
            let party := if str_eqb party NULL then [] else party in
            let winner :=
              if str_eqb winner_flag (lit "1") then lit "TRUE" else [] in
            [mkRow (normalize_county county_raw) []
                   (normalize_office office_raw) [] party candidate v winner]
        end.

Definition convert_pipe_style_file (lines : list str) : list Row :=
  flat_map pipe_line lines.

(** *** Modern extractor, [convert_modern_precinct_csv] *)

(** [parse_int]; the argument is [None] for a missing cell. *)
Definition parse_int (value : option str) : Z :=
  match value with
  | None => 0%Z
  | Some s =>
      let text := strip_quote (strip s) in
      if negb (truthy text) then 0%Z
      else
        match Py.int (replace_char "," [] text) with
        | Some v => v
        | None => 0%Z
        end
  end.

(** A row of [csv.DictReader]: header names bound to cells, [None] for
    the cells a short row lacks.  Later bindings win, as in [dict]. *)
Definition dict_row := list (str * option str).

Definition make_dict (fieldnames : list str) (row : csv_row) : dict_row :=
  combine fieldnames
          (map Some row
           ++ repeat None (List.length fieldnames - List.length row)).

(** The value stored under [k], if the key is present. *)
Fixpoint dict_lookup (d : dict_row) (k : str) : option (option str) :=
  match d with
  | [] => None
  | (k', v) :: rest =>
      match dict_lookup rest k with
      | Some r => Some r
      | None => if str_eqb k' k then Some v else None
      end
  end.

(** [row.get(k)] and [row.get(k, default)] *)
Definition dict_get (d : dict_row) (k : str) (default : option str)
  : option str :=
  match dict_lookup d k with
  | Some v => v
  | None => default
  end.

(** [(row.get(k) or "")] *)
Definition get_or_empty (d : dict_row) (k : string) : str :=
  match dict_get d (lit k) None with
  | Some s => s
  | None => []
  end.

Definition is_vote_column (c : str) : bool :=
  truthy c && contains (lit "Votes") c && negb (contains (lit "Against") c).

Definition winner_values : list string := [ "Y"; "TRUE"; "1" ]%string.

Definition modern_row (vote_columns : list str) (row : dict_row) : Row :=
  let county_name := strip (get_or_empty row "County Name") in
  let county_code := zfill 2 (strip (get_or_empty row "County")) in
  let county_name :=
    if negb (truthy county_name)
    then table_get COUNTY_CODE_TO_NAME county_code county_code
    else county_name in
  let county := normalize_county county_name in
  let ep := strip (get_or_empty row "Election District - Precinct") in
  let precinct :=
    if truthy ep then ep
    else
      let ed := strip (get_or_empty row "Election District") in
      let pr := strip (get_or_empty row "Election Precinct") in
      if truthy ed || truthy pr then ed ++ lit "-" ++ pr else [] in
  let office := normalize_office (strip (get_or_empty row "Office Name")) in
  let district := strip_quote (strip (get_or_empty row "Office District")) in
  let candidate := strip_quote (strip (get_or_empty row "Candidate Name")) in
  let party := strip_quote (strip (get_or_empty row "Party")) in
  let winner_cell := upper (strip (get_or_empty row "Winner")) in
  let winner :=
    if existsb (fun w => codes_eqb winner_cell (codes (lit w))) winner_values
    then lit "TRUE" else [] in
  let votes :=
    fold_left Z.add
              (map (fun col => parse_int (dict_get row col (Some []))) vote_columns)
              0%Z in
  mkRow county precinct office district party candidate votes winner.

Definition is_blank_row (row : csv_row) : bool :=
  match row with [] => true | _ :: _ => false end.

Definition convert_modern_precinct_csv (rows : list csv_row) : list Row :=
  match rows with
  | [] => []
  | fieldnames :: data =>
      if is_blank_row fieldnames then []
      else
        let vote_columns := filter is_vote_column fieldnames in
        map (fun row => modern_row vote_columns (make_dict fieldnames row))
            (filter (fun row => negb (is_blank_row row)) data)
  end.

(** ** Format detection and dispatch *)

Inductive csv_format := modern | legacy.

Definition detect_csv_format (rows : list csv_row) : csv_format :=
  let header := match rows with h :: _ => h | [] => [] end in
  let normalized := map (fun h => strip_quote (strip h)) header in
  if existsb (str_eqb (lit "Candidate Name")) normalized
     && existsb (str_eqb (lit "Office Name")) normalized
  then modern else legacy.

(** An input file as the script reads it: the suffix of its path, the
    lines that iterating over it yields, the rows that [csv.reader]
    yields. *)
Record source_file := mkSource {
  suffix : str;
  file_lines : list str;
  file_rows : list csv_row
}.

Definition convert_file (f : source_file) : list Row :=
  if str_eqb (lower (suffix f)) (lit ".txt")
  then convert_pipe_style_file (file_lines f)
  else
    match detect_csv_format (file_rows f) with
    | modern => convert_modern_precinct_csv (file_rows f)
    | legacy => convert_csv_style_file (file_rows f)
    end.


(** ** Output file names, [build_output_name] *)

Definition YEAR_TO_ELECTION_DATE : list (Z * string) :=
  [ (1986, "19861104"); (1988, "19881108"); (1990, "19901106");
    (1992, "19921103"); (1994, "19941108"); (1996, "19961105");
    (1998, "19981103"); (2000, "20001107"); (2002, "20021105");
    (2012, "20121106"); (2014, "20141104"); (2016, "20161108");
    (2018, "20181106"); (2020, "20201103"); (2022, "20221108");
    (2024, "20241105") ]%Z%string.

(** [d.get(year)] on a table with integer keys. *)
Fixpoint year_get (d : list (Z * string)) (year : Z) : option str :=
  match d with
  | [] => None
  | (y, v) :: rest => if Z.eqb y year then Some (lit v) else year_get rest year
  end.

(** The extension alternative of the file name pattern, then the dollar
    anchor. *)
Definition csv_or_txt : Re.matcher :=
  fun s =>
    match Re.lit_ci "csv" Re.eol s with
    | Some r => Some r
    | None => Re.lit_ci "txt" Re.eol s
    end.

(** The file name pattern under [re.match] with [re.I]: four decimal
    digits, white space, General, white space, Election, a dot, csv or
    txt, the end.  Yields group 1, the four digits. *)
Definition pat_input_name (s : str) : option str :=
  match s with
  | d1 :: d2 :: d3 :: d4 :: rest =>
      if is_digit d1 && is_digit d2 && is_digit d3 && is_digit d4 then
        match
          Re.ws_plus
            (Re.lit_ci "General"
               (Re.ws_plus (Re.lit_ci "Election" (Re.chr "." csv_or_txt))))
            rest
        with
        | Some _ => Some [d1; d2; d3; d4]
        | None => None
        end
      else None
  | _ => None
  end.

(** The [ValueError]s that [build_output_name] can end with. *)
Inductive ValueError :=
| Unrecognized_filename_format
| No_election_date_mapping (year : Z)
| Invalid_literal.

Definition build_output_name (input_name : str) : ValueError + str :=
  match pat_input_name input_name with
  | None => inl Unrecognized_filename_format
  | Some group1 =>
      match Py.int group1 with
      | None => inl Invalid_literal
      | Some year =>
          match year_get YEAR_TO_ELECTION_DATE year with
          | Some date_part =>
              if truthy date_part
              then inr (date_part ++ lit "__md__general__county.csv")
              else inl (No_election_date_mapping year)
          | None => inl (No_election_date_mapping year)
          end
      end
  end.

(** The name test that [main] applies to the entries of the data
    directory. *)
Definition is_input_name (name : str) : bool :=
  match pat_input_name name with
  | Some _ => true
  | None => false
  end.
(** ** Notions used in the statements *)

(** The winner component of [parse_candidate]. *)
Definition winner_of (cell : str) : str :=
  let '(_, _, w) := parse_candidate cell in w.

(** The three rows of the one-office example. *)
Definition governor_csv : list csv_row :=
  [ [lit "Governor - Vote For One"];
    [lit ""; lit "Alice (DEM)"; lit "Bob (REP) Winner"];
    [lit "Somerset County"; lit "120"; lit "80"] ].

(** A winner field is the string TRUE or the empty string. *)
Definition winner_ok (r : Row) : Prop :=
  winner r = lit "TRUE" \/ winner r = [].

Definition header_winner_ok (e : candidate_header) : Prop :=
  let '(_, _, w) := e in w = lit "TRUE" \/ w = [].

(** What the pivoted-legacy loop keeps true of its state. *)
Definition legacy_winner_inv (st : legacy_state) : Prop :=
  Forall winner_ok (rows_out st)
  /\ Forall header_winner_ok (cur_candidates st).

(** The first row of a CSV file, [next(reader, [])]. *)
Definition first_row (rows : list csv_row) : csv_row :=
  match rows with
  | h :: _ => h
  | [] => []
  end.

(** The first row has a cell that reads [name] once white space and
    quotes are stripped. *)
Definition has_header (name : string) (f : source_file) : Prop :=
  exists h, In h (first_row (file_rows f))
            /\ strip_quote (strip h) = lit name.

(** The character is the small or the capital form of a letter. *)
Definition either (small capital c : ascii) : Prop :=
  c = small \/ c = capital.

(** The suffix reads .txt in some letter case: a dot, then t, x and t,
    each small or capital. *)
Definition txt_suffix (s : str) : Prop :=
  exists a b c,
    s = ["."%char; a; b; c]
    /\ either "t" "T" a /\ either "x" "X" b /\ either "t" "T" c.

(** A file with a mixed-case .txt suffix whose content, read as CSV,
    would select the modern extractor. *)
Definition sample_txt : source_file :=
  mkSource (lit ".TxT") [lit "Gov|x|A|Doe|M|Jane|DEM|1|x|12"]
           [[lit "Candidate Name"; lit "Office Name"; lit "Votes"];
            [lit "Alice"; lit "Governor"; lit "12"]].

Definition sample_modern : source_file :=
  mkSource (lit ".csv") []
           [[lit " Office Name "; lit "Votes"; lit "Candidate Name"];
            [lit "Governor"; lit "12"; lit "Alice"]].

Definition sample_legacy : source_file :=
  mkSource (lit ".csv") [] governor_csv.

(** The keys of a table, as texts. *)
Definition table_keys (d : list (string * string)) : list str :=
  map (fun kv => lit (fst kv)) d.

(** A character that no step of [normalize_county] touches. *)
Definition plain_char (c : ascii) : Prop :=
  isspace c = false /\ c <> dquote /\ c <> "`"%char.

Definition sample_fieldnames : list str :=
  [lit "County"; lit "County Name"; lit "Candidate Name"; lit "Votes"].

Definition sample_unmapped_row : csv_row :=
  [lit " 0 "; lit ""; lit "Alice"; lit "7"].

(** A row whose County cell holds a name where a code is expected. *)
Definition kent_row : csv_row :=
  [lit "Kent County"; lit ""; lit "Alice"; lit "7"].

(** The total computed column by column, by position, with the
    vote-column test of the extractor. *)
Fixpoint column_sum (columns : list (str * option str)) : Z :=
  match columns with
  | [] => 0%Z
  | (h, c) :: rest =>
      ((if is_vote_column h then parse_int c else 0) + column_sum rest)%Z
  end.

(** The vote total that the modern extractor gives a row. *)
Definition modern_votes (fieldnames : list str) (row : csv_row) : Z :=
  votes (modern_row (filter is_vote_column fieldnames)
                    (make_dict fieldnames row)).

Definition sumZ (l : list Z) : Z := fold_right Z.add 0%Z l.

Definition method_fieldnames : list str :=
  [lit "Election Day Votes"; lit "Early Votes";
   lit "Provisional Against Votes"].

Definition method_row : csv_row := [lit "10"; lit "5"; lit "3"].

Definition twice_fieldnames : list str :=
  [lit "Candidate Name"; lit "Office Name"; lit "Early Votes";
   lit "Early Votes"].

Definition twice_row : csv_row := [lit "A"; lit "Gov"; lit "5"; lit "7"].

(** The cell carries a minus sign. *)
Definition has_minus (cell : str) : Prop := In "-"%char cell.

(** [int] reads [v] from a vote cell of the pivoted layout: the cell is
    not blank once white space and quotes are stripped, and with its
    commas removed it parses to [v]. *)
Definition reads_as (cell : str) (v : Z) : Prop :=
  exists t, clean_vote_cell (strip cell) = Some t /\ Py.int t = Some v.

(** The vote field of a pipe-delimited line, [parts[9]]. *)
Definition pipe_votes_raw (line : str) : str :=
  nth 9 (map strip (split_on "|" (rstrip_by (Ascii.eqb newline) line))) [].

(** Where a row of the pivoted-legacy extractor comes from. *)
Definition legacy_origin (rows : list csv_row) (r : Row) : Prop :=
  exists row cell,
    In row rows /\ In cell row /\ reads_as cell (votes r)
    /\ ((0 <= votes r)%Z \/ has_minus cell).

(** Where a row of the pipe-delimited extractor comes from: a line
    whose vote field parses to its votes. *)
Definition pipe_origin (lines : list str) (r : Row) : Prop :=
  exists line,
    In line lines
    /\ Py.int (replace_char "," [] (pipe_votes_raw line)) = Some (votes r)
    /\ ((0 <= votes r)%Z \/ has_minus (pipe_votes_raw line)).

(** Where a row of the modern extractor comes from: a data row of the
    file, of which it is the output; its votes are a sum of terms, each
    of them zero or a value that [int] reads from a cell of that row,
    and they are non-negative unless a cell of that row carries a minus
    sign. *)
Definition modern_origin (rows : list csv_row) (r : Row) : Prop :=
  exists fieldnames data row terms,
    rows = fieldnames :: data /\ In row data
    /\ r = modern_row (filter is_vote_column fieldnames)
                      (make_dict fieldnames row)
    /\ votes r = sumZ terms
    /\ Forall (fun z => z = 0%Z
                        \/ exists cell, In cell row /\ reads_as cell z)
              terms
    /\ ((0 <= votes r)%Z
        \/ exists cell, In cell row /\ has_minus cell).

Definition negative_csv : list csv_row :=
  [ [lit "Governor - Vote For One"];
    [lit ""; lit "Alice (DEM)"; lit "Bob (REP) Winner"];
    [lit "Somerset County"; lit "-5"; lit "80"] ].

(** The text does not begin with a character of the class [p]. *)
Definition no_lead (p : ascii -> bool) (x : str) : Prop :=
  match x with
  | [] => True
  | c :: _ => p c = false
  end.

(** Neither end of the text is in the class [p]. *)
Definition trimmed (p : ascii -> bool) (x : str) : Prop :=
  no_lead p x /\ no_lead p (rev x).

(** The vote cell is blank or non-numeric: [int] reads no value from
    it. *)
Definition unreadable (cell : str) : Prop := forall v, ~ reads_as cell v.

(** The same for the vote field of a pipe-delimited line; the empty
    field and the NULL token are among the texts that do not parse. *)
Definition pipe_unreadable (line : str) : Prop :=
  Py.int (replace_char "," [] (pipe_votes_raw line)) = None.

Definition blank_votes_csv : list csv_row :=
  [ [lit "Candidate Name"; lit "Office Name"; lit "Votes"];
    [lit "Alice"; lit "Governor"; lit ""];
    [lit "Bob"; lit "Governor"; lit "n/a"] ].

Definition sample_header_entry : candidate_header :=
  (lit "Alice", lit "DEM", lit "").

Definition sample_state : legacy_state :=
  mkLegacy (Some (lit "Governor")) [sample_header_entry] [].

Definition sample_null_line : str := lit "Gov|x|A|Doe|\N|\N|\N|0|x|\N".

(** The shape shared by the two suffix patterns of [normalize_county]:
    white space, a word in any letter case, the end of the text. *)
Definition suffix_word (w : string) : Re.matcher :=
  Re.ws_plus (Re.lit_ci w Re.eol).

(** What [replace] does to one character in [normalize_county]. *)
Definition tick (c : ascii) : ascii :=
  if Ascii.eqb c "`" then "'"%char else c.

(** [normalize_county] up to the table lookup: stripped, and with the
    two suffix substitutions applied. *)
Definition county_core (raw : str) : str :=
  Re.re_sub (suffix_word "city") (lit " City")
    (Re.re_sub (suffix_word "County") []
       (strip (strip_quote (strip raw)))).

(** The letters of a pattern word are neither of the two characters that
    [tick] tells apart. *)
Definition tick_free (p : ascii) : Prop :=
  lower_char p <> "'"%char /\ lower_char p <> "`"%char.

Definition table_values (d : list (string * string)) : list str :=
  map (fun kv => lit (snd kv)) d.

(** [sub] occurs in [s]. *)
Definition has_substring (sub s : str) : Prop :=
  exists p q, s = p ++ sub ++ q.

(** A vote column in the words of the specification: the header
    contains Votes and does not contain Against, letter case as
    written. *)
Definition vote_header (h : str) : Prop :=
  has_substring (lit "Votes") h /\ ~ has_substring (lit "Against") h.

(** The integer value of a cell: what [int] reads from it, and zero for
    a cell that is missing, blank or not numeric. *)
Inductive cell_value : option str -> Z -> Prop :=
| value_read (s : str) (z : Z) : reads_as s z -> cell_value (Some s) z
| value_unreadable (s : str) : unreadable s -> cell_value (Some s) 0%Z
| value_missing : cell_value None 0%Z.

(** The total of a row over its columns, taken by position: the integer
    values of the cells under vote headers, and nothing else. *)
Inductive columns_total : list (str * option str) -> Z -> Prop :=
| total_end : columns_total [] 0%Z
| total_vote (h : str) (c : option str) (rest : list (str * option str))
             (v z : Z) :
    vote_header h -> cell_value c v -> columns_total rest z ->
    columns_total ((h, c) :: rest) (v + z)%Z
| total_other (h : str) (c : option str) (rest : list (str * option str))
              (z : Z) :
    ~ vote_header h -> columns_total rest z ->
    columns_total ((h, c) :: rest) z.

(** No vote header is written over two columns. *)
Definition vote_headers_distinct (fieldnames : list str) : Prop :=
  forall i j h,
    nth_error fieldnames i = Some h -> nth_error fieldnames j = Some h ->
    vote_header h -> i = j.

(** A header that repeats a name which is not a vote header. *)
Definition notes_fieldnames : list str :=
  [lit "Notes"; lit "Notes"; lit "Early Votes"; lit "Mail Votes"].

Definition notes_row : csv_row := [lit "a"; lit "b"; lit "5"; lit "1,200"].

(** ** Notions used in the further properties *)

(** The class of the double quote, as [strip_quote] takes it. *)
Definition is_quote (c : ascii) : bool := existsb (Ascii.eqb c) [dquote].

(** The class that [normalize_office] strips last: space and hyphen. *)
Definition space_or_hyphen (c : ascii) : bool :=
  existsb (Ascii.eqb c) (lit " -").

(** The text neither begins nor ends with white space or a quote. *)
Definition bare (x : str) : Prop :=
  trimmed isspace x /\ trimmed is_quote x.

(** Every white-space character from here on is a space that does not
    follow white space; [prev_ws] tells whether the character before was
    white space (it is set at the start of a text, where a space is not
    allowed either). *)
Fixpoint single_spaced (prev_ws : bool) (s : str) : bool :=
  match s with
  | [] => true
  | c :: t =>
      if isspace c
      then Ascii.eqb c " " && negb prev_ws && single_spaced true t
      else single_spaced false t
  end.

(** White space normalized: words separated by single spaces, nothing
    around them. *)
Definition tidy (s : str) : Prop :=
  single_spaced true s = true /\ no_lead isspace (rev s).

Definition no_paren (s : str) : Prop :=
  forall c, In c s -> Re.is_paren c = false.

(** The bytes that code page 1252 leaves undefined. *)
Definition cp1252_undefined : list N := [129; 141; 143; 144; 157]%N.


(** Every byte is below 128. *)
Definition ascii_bytes (bs : Reader.bytes) : Prop :=
  forall b, In b bs -> (Byte.to_N b < 128)%N.

(** Some byte of the file is undefined in code page 1252. *)
Definition has_undefined_byte (bs : Reader.bytes) : Prop :=
  exists b, In b bs /\ In (Byte.to_N b) cp1252_undefined.

(** The file is a byte-order mark cut short: EF, or EF BB, and nothing
    else. *)
Definition truncated_mark (bs : Reader.bytes) : Prop :=
  map Byte.to_N bs = [239]%N \/ map Byte.to_N bs = [239; 187]%N.

(** The bytes that follow a complete leading byte-order mark; all the
    bytes when there is none. *)
Definition after_mark (bs : Reader.bytes) : Reader.bytes :=
  if codes_eqb (map Byte.to_N (firstn 3 bs)) [239; 187; 191]%N
  then skipn 3 bs else bs.

(** What the first encoding accepts: valid UTF-8 after an optional
    byte-order mark, or a mark cut short. *)
Definition utf_8_sig_readable (bs : Reader.bytes) : Prop :=
  truncated_mark bs \/ Reader.utf_8_decode (after_mark bs) <> None.

(** Every cell of the row is empty or white space; the empty row
    counts. *)
Definition blank_csv_row (row : csv_row) : bool :=
  forallb (forallb isspace) row.

(** The row announces an office: the test of the pivoted-legacy loop,
    on the row as [csv.reader] yields it. *)
Definition announces_office (row : csv_row) : bool :=
  is_marker_row (strip (strip_quote (nth 0 (map strip row) [])))
                (map strip row).

(** What every row of the pivoted-legacy and of the pipe-delimited
    extractor looks like. *)
Definition county_level (r : Row) : Prop :=
  precinct r = [] /\ district r = [] /\ candidate r <> [].

Definition header_named (e : candidate_header) : Prop :=
  let '(c, _, _) := e in c <> [].

(** What the pivoted-legacy loop keeps true of its rows and headers. *)
Definition legacy_shape_inv (st : legacy_state) : Prop :=
  Forall (fun r => county_level r /\ office r <> []) (rows_out st)
  /\ Forall header_named (cur_candidates st).

Definition count_char (c : ascii) (s : str) : nat :=
  List.length (filter (Ascii.eqb c) s).

(** The last-name field of a pipe-delimited line, [parts[3]]. *)
Definition pipe_last_name (line : str) : str :=
  nth 3 (map strip (split_on "|" (rstrip_by (Ascii.eqb newline) line))) [].

(** Four decimal digits. *)
Definition four_digits (g : str) : Prop :=
  List.length g = 4 /\ forallb is_digit g = true.

Definition output_suffix : str := lit "__md__general__county.csv".

(** The county name that the code table gives a code. *)
Definition code_entry (k v : string) : Prop :=
  In (k, v) COUNTY_CODE_TO_NAME.

(** A candidate name as a header cell is expected to spell it: not
    empty, white space normalized, no parenthesis, no leading quote. *)
Definition plain_name (name : str) : Prop :=
  name <> [] /\ tidy name /\ no_paren name /\ no_lead is_quote name.

(** A header cell made of a name and a party in parentheses. *)
Definition header_text (name party : str) : str :=
  name ++ lit " (" ++ party ++ lit ")".

(** ** Properties *)

(** *** Strings *)

Lemma str_eqb_eq (a b : str) : str_eqb a b = true <-> a = b.
Proof.
  revert b; induction a as [|x a IH]; intros [|y b]; simpl;
    try (split; [discriminate | congruence]); try tauto.
  rewrite andb_true_iff, Ascii.eqb_eq, IH. split.
  - intros [-> ->]. reflexivity.
  - intros H. inversion H. auto.
Qed.

Lemma str_eqb_refl (a : str) : str_eqb a a = true.
Proof. apply str_eqb_eq. reflexivity. Qed.

Lemma startswith_app (pre t : str) : startswith pre (pre ++ t) = true.
Proof.
  induction pre as [|p pre IH]; simpl; [reflexivity|].
  rewrite Ascii.eqb_refl. exact IH.
Qed.

Lemma startswith_inv (pre s : str) :
  startswith pre s = true -> exists t, s = pre ++ t.
Proof.
  revert s; induction pre as [|p pre IH]; intros s H.
  - exists s. reflexivity.
  - destruct s as [|c s]; simpl in H; [discriminate|].
    apply andb_true_iff in H. destruct H as [Hc H].
    apply Ascii.eqb_eq in Hc. subst c.
    destruct (IH _ H) as [t ->]. exists t. reflexivity.
Qed.

Lemma endswith_spec (suf s : str) :
  endswith suf s = true <-> exists p, s = p ++ suf.
Proof.
  unfold endswith. split.
  - intros H. apply startswith_inv in H. destruct H as [t Ht].
    exists (rev t).
    rewrite <- (rev_involutive s), Ht, rev_app_distr, rev_involutive.
    reflexivity.
  - intros [p ->]. rewrite rev_app_distr. apply startswith_app.
Qed.

(** *** The candidate cell parser *)

Lemma parse_candidate_winner (cell : str) :
  winner_of cell =
  if endswith (lit " Winner") (strip_quote (strip cell))
  then lit "TRUE" else [].
Proof.
  unfold winner_of, parse_candidate.
  destruct (Re.re_search Re.pat_party _) as [[before group1]|]; reflexivity.
Qed.

(** C7: the candidate parser maps the cell Jane Doe (DEM) Winner to the
    triple (Jane Doe, DEM, TRUE) and the cell John Q. Smith to
    (John Q. Smith, empty, empty); for every cell the winner component is
    TRUE exactly when the cell, stripped of white space and quotes, ends
    with the suffix made of a space and the word Winner, and it is the
    empty string otherwise. *)
Theorem parse_candidate_winner_suffix :
  parse_candidate (lit "Jane Doe (DEM) Winner")
  = (lit "Jane Doe", lit "DEM", lit "TRUE")
  /\ parse_candidate (lit "John Q. Smith") = (lit "John Q. Smith", [], [])
  /\ forall cell : str,
      (winner_of cell = lit "TRUE"
       /\ exists p, strip_quote (strip cell) = p ++ lit " Winner")
      \/ (winner_of cell = []
          /\ ~ exists p, strip_quote (strip cell) = p ++ lit " Winner").
Proof.
  split; [reflexivity|]. split; [reflexivity|].
  intros cell. rewrite parse_candidate_winner.
  destruct (endswith (lit " Winner") (strip_quote (strip cell))) eqn:E.
  - left. split; [reflexivity|]. apply endswith_spec. exact E.
  - right. split; [reflexivity|]. intros H.
    apply endswith_spec in H. congruence.
Qed.

(** *** The reader *)

(** C8: the reader succeeds on every byte sequence.  Whatever the bytes,
    the call returns from inside the loop over the encodings (at the
    latest with latin-1, which decodes every byte), so no decoding error
    is raised and the retry placed after the loop is never reached. *)
Theorem read_text_with_fallback_total (bs : Reader.bytes) :
  exists enc t,
    Reader.read_text_with_fallback bs = Reader.ReturnInLoop enc t
    /\ Reader.read_text enc bs = Some t.
Proof.
  unfold Reader.read_text_with_fallback. simpl.
  destruct (Reader.read_text Reader.utf_8_sig bs) as [t|] eqn:E1.
  - exists Reader.utf_8_sig, t. auto.
  - destruct (Reader.read_text Reader.cp1252 bs) as [t|] eqn:E2.
    + exists Reader.cp1252, t. auto.
    + exists Reader.latin_1,
        (Reader.universal_newlines (Reader.latin_1_decode bs)). auto.
Qed.

(** *** The pivoted-legacy example *)

(** C4: on the marker row Governor - Vote For One, the candidate header
    row (empty, Alice (DEM), Bob (REP) Winner) and the data row
    (Somerset County, 120, 80) the pivoted-legacy extractor produces
    exactly two rows, in this order: Somerset, Governor, DEM, Alice, 120,
    not a winner; Somerset, Governor, REP, Bob, 80, winner TRUE. *)
Theorem convert_csv_style_file_governor :
  convert_csv_style_file governor_csv =
  [ mkRow (lit "Somerset") [] (lit "Governor") [] (lit "DEM") (lit "Alice")
          120 [];
    mkRow (lit "Somerset") [] (lit "Governor") [] (lit "REP") (lit "Bob")
          80 (lit "TRUE") ].
Proof. vm_compute. reflexivity. Qed.

(** *** The winner field *)

Lemma parse_candidate_winner_ok (cell : str) :
  header_winner_ok (parse_candidate cell).
Proof.
  pose proof (parse_candidate_winner cell) as H. unfold winner_of in H.
  destruct (parse_candidate cell) as [[c p] w]. simpl.
  rewrite H. destruct (endswith _ _); auto.
Qed.

Lemma header_cell_winner_ok (cell : str) :
  Forall header_winner_ok (header_cell cell).
Proof.
  unfold header_cell. destruct (negb (truthy (strip cell))); [constructor|].
  pose proof (parse_candidate_winner_ok (strip cell)) as H.
  destruct (parse_candidate (strip cell)) as [[c p] w].
  destruct (truthy c); [|constructor].
  constructor; [exact H | constructor].
Qed.

Lemma Forall_flat_map (A B : Type) (P : B -> Prop) (f : A -> list B)
      (l : list A) :
  (forall a, In a l -> Forall P (f a)) -> Forall P (flat_map f l).
Proof.
  induction l as [|a l IH]; intros H; simpl; [constructor|].
  apply Forall_app. split; [apply H; left; reflexivity|].
  apply IH. intros b Hb. apply H. right. exact Hb.
Qed.

Lemma enumerate1_In (A : Type) (l : list A) (i : nat) (a : A) :
  In (i, a) (enumerate1 l) -> In a l.
Proof. unfold enumerate1. apply in_combine_r. Qed.

Lemma emit_vote_winner_ok (c o : str) (row : csv_row)
      (entry : nat * candidate_header) :
  header_winner_ok (snd entry) -> Forall winner_ok (emit_vote c o row entry).
Proof.
  destruct entry as [idx [[cand p] w]]. simpl. intros Hw.
  destruct (List.length row <=? idx); [constructor|].
  destruct (clean_vote_cell _); [|constructor].
  destruct (Py.int _); [|constructor].
  constructor; [exact Hw | constructor].
Qed.

Lemma legacy_step_winner_inv (st : legacy_state) (row : csv_row) :
  legacy_winner_inv st -> legacy_winner_inv (legacy_step st row).
Proof.
  intros [Hr Hc]. unfold legacy_step.
  destruct (negb (existsb truthy (map strip row))); [split; assumption|].
  destruct (is_marker_row _ _); [split; [assumption | constructor]|].
  destruct (negb (truthy _) && office_truthy _).
  { split; [assumption|]. simpl. apply Forall_flat_map.
    intros a _. apply header_cell_winner_ok. }
  destruct (office_truthy _ && _ && _); [|split; assumption].
  split; [|assumption]. simpl. apply Forall_app. split; [assumption|].
  apply Forall_flat_map. intros [i e] Hin. apply emit_vote_winner_ok.
  simpl. apply enumerate1_In in Hin.
  rewrite Forall_forall in Hc. apply Hc. exact Hin.
Qed.

Lemma fold_legacy_winner_inv (rows : list csv_row) (st : legacy_state) :
  legacy_winner_inv st ->
  legacy_winner_inv (fold_left legacy_step rows st).
Proof.
  revert st. induction rows as [|row rows IH]; intros st H; simpl; [exact H|].
  apply IH. apply legacy_step_winner_inv. exact H.
Qed.

Lemma legacy_winner_ok (rows : list csv_row) :
  Forall winner_ok (convert_csv_style_file rows).
Proof.
  apply (fold_legacy_winner_inv rows (st := legacy_init)).
  split; constructor.
Qed.

Lemma pipe_line_winner_ok (line : str) : Forall winner_ok (pipe_line line).
Proof.
  unfold pipe_line.
  destruct (negb (truthy _)); [constructor|].
  destruct (List.length _ <? 10); [constructor|].
  destruct (str_eqb _ [] || _); [constructor|].
  destruct (Py.int _); [|constructor].
  constructor; [|constructor]. unfold winner_ok. simpl.
  destruct (str_eqb (nth 7 _ _) _); auto.
Qed.

Lemma pipe_winner_ok (lines : list str) :
  Forall winner_ok (convert_pipe_style_file lines).
Proof.
  apply Forall_flat_map. intros l _. apply pipe_line_winner_ok.
Qed.

Lemma modern_row_winner_ok (vc : list str) (d : dict_row) :
  winner_ok (modern_row vc d).
Proof.
  unfold winner_ok, modern_row. simpl.
  match goal with |- context [if ?b then _ else _] => destruct b end; auto.
Qed.

Lemma modern_winner_ok (rows : list csv_row) :
  Forall winner_ok (convert_modern_precinct_csv rows).
Proof.
  unfold convert_modern_precinct_csv.
  destruct rows as [|h data]; [constructor|].
  destruct (is_blank_row h); [constructor|].
  apply Forall_forall. intros r Hr. apply in_map_iff in Hr.
  destruct Hr as [row [<- _]]. apply modern_row_winner_ok.
Qed.

(** C9: every row emitted by the pivoted-legacy, the pipe-delimited and
    the modern extractor, and so every row that [convert_file] yields,
    has a winner field that is the string TRUE or the empty string. *)
Theorem winner_is_TRUE_or_empty :
  (forall rows, Forall winner_ok (convert_csv_style_file rows))
  /\ (forall lines, Forall winner_ok (convert_pipe_style_file lines))
  /\ (forall rows, Forall winner_ok (convert_modern_precinct_csv rows))
  /\ (forall f, Forall winner_ok (convert_file f)).
Proof.
  split; [exact legacy_winner_ok|].
  split; [exact pipe_winner_ok|].
  split; [exact modern_winner_ok|].
  intros f. unfold convert_file.
  destruct (str_eqb _ _); [apply pipe_winner_ok|].
  destruct (detect_csv_format _);
    [apply modern_winner_ok | apply legacy_winner_ok].
Qed.

(** *** Format selection *)

Lemma existsb_str_eqb (name : str) (l : list str) :
  existsb (str_eqb name) l = true <-> In name l.
Proof.
  rewrite existsb_exists. split.
  - intros [x [Hin Hx]]. apply str_eqb_eq in Hx. subst. exact Hin.
  - intros H. exists name. split; [exact H | apply str_eqb_refl].
Qed.

Lemma detect_modern_iff (f : source_file) :
  detect_csv_format (file_rows f) = modern
  <-> has_header "Candidate Name" f /\ has_header "Office Name" f.
Proof.
  unfold detect_csv_format, has_header, first_row.
  set (header := match file_rows f with h :: _ => h | [] => [] end).
  destruct (existsb (str_eqb (lit "Candidate Name")) _) eqn:E1;
    destruct (existsb (str_eqb (lit "Office Name")) _) eqn:E2; simpl;
    try (apply existsb_str_eqb, in_map_iff in E1);
    try (apply existsb_str_eqb, in_map_iff in E2).
  - split; [intros _ | reflexivity].
    destruct E1 as [h1 [? ?]], E2 as [h2 [? ?]]. split; eauto.
  - split; [discriminate|]. intros [_ [h [Hin Hh]]].
    assert (existsb (str_eqb (lit "Office Name"))
              (map (fun h => strip_quote (strip h)) header) = true).
    { apply existsb_str_eqb, in_map_iff. eauto. }
    congruence.
  - split; [discriminate|]. intros [[h [Hin Hh]] _].
    assert (existsb (str_eqb (lit "Candidate Name"))
              (map (fun h => strip_quote (strip h)) header) = true).
    { apply existsb_str_eqb, in_map_iff. eauto. }
    congruence.
  - split; [discriminate|]. intros [[h [Hin Hh]] _].
    assert (existsb (str_eqb (lit "Candidate Name"))
              (map (fun h => strip_quote (strip h)) header) = true).
    { apply existsb_str_eqb, in_map_iff. eauto. }
    congruence.
Qed.

Lemma lower_char_small (small capital : ascii) :
  lower_char capital = small -> lower_char small = small ->
  (forall c, lower_char c = small -> c = small \/ c = capital) ->
  forall c, lower_char c = small <-> either small capital c.
Proof.
  intros Hc Hs Hinv c. split; [apply Hinv|].
  intros [-> | ->]; assumption.
Qed.

Lemma lower_char_dot (c : ascii) : lower_char c = "."%char -> c = "."%char.
Proof.
  destruct c as [[] [] [] [] [] [] [] []]; vm_compute; intros H;
    try discriminate H; reflexivity.
Qed.

Lemma lower_char_t (c : ascii) :
  lower_char c = "t"%char <-> either "t" "T" c.
Proof.
  apply lower_char_small; try reflexivity. clear c. intros c.
  destruct c as [[] [] [] [] [] [] [] []]; vm_compute; intros H;
    try discriminate H; auto.
Qed.

Lemma lower_char_x (c : ascii) :
  lower_char c = "x"%char <-> either "x" "X" c.
Proof.
  apply lower_char_small; try reflexivity. clear c. intros c.
  destruct c as [[] [] [] [] [] [] [] []]; vm_compute; intros H;
    try discriminate H; auto.
Qed.

Lemma lower_txt (s : str) : lower s = lit ".txt" <-> txt_suffix s.
Proof.
  unfold txt_suffix, lower.
  change (lit ".txt") with ["."%char; "t"%char; "x"%char; "t"%char].
  split.
  - destruct s as [|d [|a [|b [|c [|e s]]]]]; cbn [map]; intros H;
      try discriminate H.
    injection H as Hd Ha Hb Hc. apply lower_char_dot in Hd. subst d.
    exists a, b, c. split; [reflexivity|].
    split; [apply lower_char_t; exact Ha|].
    split; [apply lower_char_x; exact Hb | apply lower_char_t; exact Hc].
  - intros [a [b [c [-> [Ha [Hb Hc]]]]]]. cbn [map].
    apply lower_char_t in Ha, Hc. apply lower_char_x in Hb.
    rewrite Ha, Hb, Hc. reflexivity.
Qed.

(** C6: a file whose suffix is .txt in any letter case goes to the
    pipe-delimited extractor whatever it contains; any other file whose
    first CSV row has a cell reading Candidate Name and a cell reading
    Office Name (white space and quotes stripped) goes to the modern
    extractor; every other file goes to the pivoted-legacy extractor. *)
Theorem convert_file_selects_extractor (f : source_file) :
  (txt_suffix (suffix f) ->
   convert_file f = convert_pipe_style_file (file_lines f))
  /\ (~ txt_suffix (suffix f) ->
      has_header "Candidate Name" f /\ has_header "Office Name" f ->
      convert_file f = convert_modern_precinct_csv (file_rows f))
  /\ (~ txt_suffix (suffix f) ->
      ~ (has_header "Candidate Name" f /\ has_header "Office Name" f) ->
      convert_file f = convert_csv_style_file (file_rows f)).
Proof.
  unfold convert_file.
  destruct (str_eqb (lower (suffix f)) (lit ".txt")) eqn:E.
  - apply str_eqb_eq, lower_txt in E.
    repeat split; intros; try reflexivity; tauto.
  - assert (~ txt_suffix (suffix f)) as Hne.
    { intros H. apply lower_txt, str_eqb_eq in H. congruence. }
    split; [tauto|]. split; intros _ H.
    + apply detect_modern_iff in H. rewrite H. reflexivity.
    + destruct (detect_csv_format (file_rows f)) eqn:D; [|reflexivity].
      apply detect_modern_iff in D. tauto.
Qed.

Lemma convert_file_selects_extractor_witness :
  (convert_file sample_txt = convert_pipe_style_file (file_lines sample_txt)
   /\ map candidate (convert_file sample_txt) = [lit "Jane M Doe"]
   /\ map candidate (convert_modern_precinct_csv (file_rows sample_txt))
      = [lit "Alice"]
   /\ convert_csv_style_file (file_rows sample_txt) = [])
  /\ (convert_file sample_modern
      = convert_modern_precinct_csv (file_rows sample_modern)
      /\ map candidate (convert_file sample_modern) = [lit "Alice"]
      /\ convert_csv_style_file (file_rows sample_modern) = []
      /\ convert_pipe_style_file (file_lines sample_modern) = [])
  /\ (convert_file sample_legacy
      = convert_csv_style_file (file_rows sample_legacy)
      /\ map candidate (convert_file sample_legacy)
         = [lit "Alice"; lit "Bob"]
      /\ map candidate
           (convert_modern_precinct_csv (file_rows sample_legacy))
         = [[]; []]
      /\ convert_pipe_style_file (file_lines sample_legacy) = []).
Proof.
  assert (convert_file sample_txt
          = convert_pipe_style_file (file_lines sample_txt)) as H1.
  { apply (proj1 (convert_file_selects_extractor sample_txt)).
    exists "T"%char, "x"%char, "T"%char. unfold either. auto. }
  assert (convert_file sample_modern
          = convert_modern_precinct_csv (file_rows sample_modern)) as H2.
  { apply (proj1 (proj2 (convert_file_selects_extractor sample_modern))).
    - intros [a [b [c [H [Ha _]]]]]. vm_compute in H.
      injection H as Ea _ _. subst a.
      destruct Ha as [Ha | Ha]; discriminate Ha.
    - split.
      + exists (lit "Candidate Name"). split; [simpl; auto | reflexivity].
      + exists (lit " Office Name "). split; [simpl; auto | reflexivity]. }
  assert (convert_file sample_legacy
          = convert_csv_style_file (file_rows sample_legacy)) as H3.
  { apply (proj2 (proj2 (convert_file_selects_extractor sample_legacy))).
    - intros [a [b [c [H [Ha _]]]]]. vm_compute in H.
      injection H as Ea _ _. subst a.
      destruct Ha as [Ha | Ha]; discriminate Ha.
    - intros [[h [Hin Hh]] _]. simpl in Hin.
      destruct Hin as [<- | []]. vm_compute in Hh. discriminate. }
  split; [|split].
  - split; [exact H1|]. rewrite H1. repeat split; reflexivity.
  - split; [exact H2|]. rewrite H2. repeat split; reflexivity.
  - split; [exact H3|]. rewrite H3. repeat split; reflexivity.
Defined.

(** *** Stripping, substitution and table lookup on plain text *)

Lemma lstrip_by_id (p : ascii -> bool) (s : str) :
  (forall c, In c s -> p c = false) -> lstrip_by p s = s.
Proof.
  destruct s as [|c s]; intros H; simpl; [reflexivity|].
  rewrite (H c); [reflexivity | left; reflexivity].
Qed.

Lemma strip_by_id (p : ascii -> bool) (s : str) :
  (forall c, In c s -> p c = false) -> strip_by p s = s.
Proof.
  intros H. unfold strip_by, rstrip_by.
  rewrite (lstrip_by_id p s H).
  rewrite lstrip_by_id; [apply rev_involutive|].
  intros c Hc. apply H. apply in_rev. exact Hc.
Qed.

Lemma re_search_ws_plus_none (k : Re.matcher) (s : str) :
  (forall c, In c s -> isspace c = false) ->
  Re.re_search (Re.ws_plus k) s = None.
Proof.
  induction s as [|c s IH]; intros H; [reflexivity|].
  simpl. rewrite (H c) by (left; reflexivity).
  rewrite IH; [reflexivity|]. intros d Hd. apply H. right. exact Hd.
Qed.

Lemma replace_char_id (old : ascii) (new s : str) :
  ~ In old s -> replace_char old new s = s.
Proof.
  induction s as [|c s IH]; intros H; [reflexivity|].
  unfold replace_char in *. simpl.
  destruct (Ascii.eqb c old) eqn:E.
  - apply Ascii.eqb_eq in E. subst. exfalso. apply H. left. reflexivity.
  - simpl. f_equal. apply IH. intros Hin. apply H. right. exact Hin.
Qed.

Lemma table_get_miss (d : list (string * string)) (k default : str) :
  ~ In k (table_keys d) -> table_get d k default = default.
Proof.
  induction d as [|[k' v] d IH]; intros H; simpl; [reflexivity|].
  destruct (str_eqb (lit k') k) eqn:E.
  - apply str_eqb_eq in E. exfalso. apply H. left. exact E.
  - apply IH. intros Hin. apply H. right. exact Hin.
Qed.

Lemma county_fixes_keys_have_backtick (k : str) :
  In k (table_keys COUNTY_FIXES) -> In "`"%char k.
Proof.
  intros [<- | [<- | [<- | []]]]; vm_compute; tauto.
Qed.

Lemma county_fixes_miss (s : str) :
  ~ In "`"%char s -> table_get COUNTY_FIXES s s = s.
Proof.
  intros H. apply table_get_miss. intros Hin. apply H.
  apply county_fixes_keys_have_backtick. exact Hin.
Qed.

Lemma normalize_county_plain (s : str) :
  (forall c, In c s -> plain_char c) -> normalize_county s = s.
Proof.
  intros H. unfold normalize_county.
  assert (forall c, In c s -> isspace c = false) as Hsp
      by (intros c Hc; apply (H c Hc)).
  assert (~ In "`"%char s) as Hbt.
  { intros Hin. destruct (H _ Hin) as [_ [_ Hne]]. apply Hne. reflexivity. }
  assert (strip s = s) as E1 by (apply strip_by_id; exact Hsp).
  assert (strip_quote s = s) as E2.
  { apply strip_by_id. intros c Hc. simpl.
    destruct (Ascii.eqb c dquote) eqn:E; [|reflexivity].
    apply Ascii.eqb_eq in E. destruct (H _ Hc) as [_ [Hq _]]. contradiction. }
  rewrite E1, E2, E1.
  unfold Re.re_sub, Re.pat_county, Re.pat_city.
  rewrite (re_search_ws_plus_none (Re.lit_ci "County" Re.eol) s Hsp).
  rewrite (re_search_ws_plus_none (Re.lit_ci "city" Re.eol) s Hsp).
  rewrite county_fixes_miss by exact Hbt.
  apply replace_char_id. exact Hbt.
Qed.

Lemma digit_is_plain (c : ascii) : is_digit c = true -> plain_char c.
Proof.
  destruct c as [[] [] [] [] [] [] [] []]; vm_compute;
    intros H; try discriminate H; repeat split; discriminate.
Qed.

(** *** The modern extractor: county code fallback *)

Lemma modern_row_emitted (fieldnames : list str) (data : list csv_row)
      (row : csv_row) :
  fieldnames <> [] -> In row data -> row <> [] ->
  In (modern_row (filter is_vote_column fieldnames)
                 (make_dict fieldnames row))
     (convert_modern_precinct_csv (fieldnames :: data)).
Proof.
  intros Hf Hin Hrow. unfold convert_modern_precinct_csv.
  destruct fieldnames as [|h fs]; [congruence|]. simpl is_blank_row. cbv iota.
  apply in_map_iff. exists row. split; [reflexivity|].
  apply filter_In. split; [exact Hin|].
  destruct row; [congruence | reflexivity].
Qed.

Lemma modern_row_county (vc : list str) (d : dict_row) :
  county (modern_row vc d) =
  normalize_county
    (if negb (truthy (strip (get_or_empty d "County Name")))
     then table_get COUNTY_CODE_TO_NAME
                    (zfill 2 (strip (get_or_empty d "County")))
                    (zfill 2 (strip (get_or_empty d "County")))
     else strip (get_or_empty d "County Name")).
Proof. reflexivity. Qed.

Lemma digit_not_sign (c : ascii) :
  is_digit c = true ->
  Ascii.eqb c "+" = false /\ Ascii.eqb c "-" = false.
Proof.
  destruct c as [[] [] [] [] [] [] [] []]; vm_compute;
    intros H; try discriminate H; split; reflexivity.
Qed.

Lemma zfill_digits (cell : str) :
  forallb is_digit cell = true ->
  zfill 2 cell = repeat "0"%char (2 - List.length cell) ++ cell.
Proof.
  intros H. unfold zfill.
  destruct (2 <=? List.length cell) eqn:L.
  - apply Nat.leb_le in L.
    replace (2 - List.length cell) with 0 by lia. reflexivity.
  - destruct cell as [|c t]; [symmetry; apply app_nil_r|].
    simpl in H. apply andb_true_iff in H. destruct H as [Hc _].
    destruct (digit_not_sign c Hc) as [-> ->]. reflexivity.
Qed.

Lemma forallb_repeat_app (p : ascii -> bool) (c : ascii) (n : nat)
      (s : str) :
  p c = true -> forallb p s = true -> forallb p (repeat c n ++ s) = true.
Proof.
  intros Hc Hs. rewrite forallb_app, Hs, andb_true_r.
  induction n as [|n IH]; simpl; [reflexivity|]. rewrite Hc. exact IH.
Qed.

(** C10, as amended: in the modern extractor, a row whose County Name
    cell is empty and whose County code, zero-padded to two characters,
    is not one of the 24 known codes is still emitted; its county field
    is that zero-padded code passed through the county normalizer.  For
    a County cell made of digits the zero-padded code is the cell with
    zeros put before it up to two characters, and the county field is
    that code itself. *)
Theorem modern_unmapped_county_code
        (fieldnames : list str) (data : list csv_row) (row : csv_row) :
  let d := make_dict fieldnames row in
  let cell := strip (get_or_empty d "County") in
  let code := zfill 2 cell in
  let r := modern_row (filter is_vote_column fieldnames) d in
  fieldnames <> [] -> In row data -> row <> [] ->
  strip (get_or_empty d "County Name") = [] ->
  ~ In code (table_keys COUNTY_CODE_TO_NAME) ->
  In r (convert_modern_precinct_csv (fieldnames :: data))
  /\ county r = normalize_county code
  /\ (forallb is_digit cell = true ->
      code = repeat "0"%char (2 - List.length cell) ++ cell
      /\ county r = code).
Proof.
  intros d cell code r Hf Hin Hrow Hname Hmiss.
  split; [apply modern_row_emitted; assumption|].
  assert (county r = normalize_county code) as Hc.
  { unfold r. rewrite modern_row_county, Hname. simpl negb. cbv iota.
    fold cell. fold code. rewrite table_get_miss by exact Hmiss.
    reflexivity. }
  split; [exact Hc|]. intros Hdig.
  pose proof (zfill_digits cell Hdig) as Hz. fold code in Hz.
  split; [exact Hz|]. rewrite Hc.
  apply normalize_county_plain. intros c Hin'. apply digit_is_plain.
  assert (forallb is_digit code = true) as Hall
      by (rewrite Hz; apply forallb_repeat_app; [reflexivity | exact Hdig]).
  rewrite forallb_forall in Hall. apply Hall. exact Hin'.
Qed.

Lemma modern_unmapped_county_code_witness :
  let r := modern_row (filter is_vote_column sample_fieldnames)
                      (make_dict sample_fieldnames sample_unmapped_row) in
  In r (convert_modern_precinct_csv
          [sample_fieldnames; sample_unmapped_row])
  /\ county r = lit "00".
Proof.
  destruct (@modern_unmapped_county_code
              sample_fieldnames [sample_unmapped_row] sample_unmapped_row)
    as [Hin [_ Hcode]].
  - discriminate.
  - left. reflexivity.
  - discriminate.
  - reflexivity.
  - vm_compute. intuition discriminate.
  - split; [exact Hin|]. destruct Hcode as [_ Hc]; [reflexivity|].
    rewrite Hc. reflexivity.
Defined.

(** C10, counterexample: a County cell that reads Kent County, under an
    empty County Name, is no known code; the row is emitted with the
    county Kent, not with the code string itself. *)
Lemma modern_unmapped_code_is_normalized :
  let d := make_dict sample_fieldnames kent_row in
  strip (get_or_empty d "County Name") = []
  /\ zfill 2 (strip (get_or_empty d "County")) = lit "Kent County"
  /\ ~ In (lit "Kent County") (table_keys COUNTY_CODE_TO_NAME)
  /\ map county (convert_modern_precinct_csv [sample_fieldnames; kent_row])
     = [lit "Kent"]
  /\ lit "Kent" <> lit "Kent County".
Proof.
  split; [reflexivity|]. split; [reflexivity|].
  split; [vm_compute; intuition discriminate|].
  split; [reflexivity | discriminate].
Qed.

(** *** The modern extractor: the vote total *)

Lemma fold_left_Zadd (l : list Z) (a : Z) :
  fold_left Z.add l a = (a + sumZ l)%Z.
Proof.
  revert a. induction l as [|x l IH]; intros a; simpl; [lia|].
  rewrite IH. lia.
Qed.

Lemma dict_lookup_absent (d : dict_row) (k : str) :
  ~ In k (map fst d) -> dict_lookup d k = None.
Proof.
  induction d as [|[k' v] d IH]; intros H; simpl; [reflexivity|].
  rewrite IH by (intros Hin; apply H; right; exact Hin).
  destruct (str_eqb k' k) eqn:E; [|reflexivity].
  apply str_eqb_eq in E. exfalso. apply H. left. exact E.
Qed.

Lemma map_fst_combine (A B : Type) (l : list A) (l' : list B) :
  List.length l <= List.length l' -> map fst (combine l l') = l.
Proof.
  revert l'. induction l as [|a l IH]; intros [|b l'] H; simpl in *;
    try reflexivity; try lia.
  f_equal. apply IH. lia.
Qed.

Lemma make_dict_keys (fieldnames : list str) (row : csv_row) :
  map fst (make_dict fieldnames row) = fieldnames.
Proof.
  unfold make_dict. apply map_fst_combine.
  rewrite length_app, length_map, repeat_length. lia.
Qed.

Lemma modern_votes_eq (fieldnames : list str) (row : csv_row) :
  modern_votes fieldnames row =
  sumZ (map (fun col =>
               parse_int (dict_get (make_dict fieldnames row) col (Some [])))
            (filter is_vote_column fieldnames)).
Proof.
  unfold modern_votes, modern_row. simpl votes.
  rewrite fold_left_Zadd. reflexivity.
Qed.

(** *** Stripping *)

Lemma no_lead_lstrip (p : ascii -> bool) (s : str) :
  no_lead p (lstrip_by p s).
Proof.
  induction s as [|c s IH]; simpl; [exact I|].
  destruct (p c) eqn:E; [exact IH | exact E].
Qed.

Lemma lstrip_no_lead (p : ascii -> bool) (x : str) :
  no_lead p x -> lstrip_by p x = x.
Proof.
  destruct x as [|c x]; simpl; [reflexivity|]. intros ->. reflexivity.
Qed.

Lemma lstrip_keeps_last (p : ascii -> bool) (l : str) (c : ascii) :
  p c = false -> exists l', lstrip_by p (l ++ [c]) = l' ++ [c].
Proof.
  intros Hc. induction l as [|x l IH]; simpl.
  - rewrite Hc. exists []. reflexivity.
  - destruct (p x); [exact IH|]. exists (x :: l). reflexivity.
Qed.

Lemma no_lead_rstrip (p : ascii -> bool) (x : str) :
  no_lead p x -> no_lead p (rstrip_by p x).
Proof.
  unfold rstrip_by. destruct x as [|c x]; simpl; [intros _; exact I|].
  intros Hc. destruct (lstrip_keeps_last p (rev x) c Hc) as [l' ->].
  rewrite rev_app_distr. simpl. exact Hc.
Qed.

Lemma strip_by_trimmed (p : ascii -> bool) (s : str) :
  trimmed p (strip_by p s).
Proof.
  unfold trimmed, strip_by. split.
  - apply no_lead_rstrip, no_lead_lstrip.
  - unfold rstrip_by. rewrite rev_involutive. apply no_lead_lstrip.
Qed.

Lemma strip_by_fix (p : ascii -> bool) (x : str) :
  trimmed p x -> strip_by p x = x.
Proof.
  intros [Hl Hr]. unfold strip_by, rstrip_by.
  rewrite (lstrip_no_lead p x Hl), (lstrip_no_lead p (rev x) Hr).
  apply rev_involutive.
Qed.

Lemma strip_by_idem (p : ascii -> bool) (s : str) :
  strip_by p (strip_by p s) = strip_by p s.
Proof. apply strip_by_fix, strip_by_trimmed. Qed.

(** *** Integers read by [int] *)

Lemma digit_value_nonneg (c : ascii) :
  is_digit c = true -> (0 <= digit_value c)%Z.
Proof.
  unfold is_digit, in_range, digit_value. intros H.
  apply andb_true_iff in H. destruct H as [H _].
  apply N.leb_le in H. lia.
Qed.

Lemma scan_digits_nonneg (s : str) (prev : Py.scan_prev) (acc v : Z)
      (rest : str) :
  (0 <= acc)%Z -> Py.scan_digits prev acc s = Some (v, rest) -> (0 <= v)%Z.
Proof.
  revert prev acc. induction s as [|c s IH]; intros prev acc Hacc H.
  - destruct prev; simpl in H; try discriminate. inversion H. lia.
  - cbn [Py.scan_digits] in H. destruct (is_digit c) eqn:D.
    + apply IH in H; [exact H|].
      pose proof (digit_value_nonneg c D). lia.
    + destruct (Ascii.eqb c "_").
      * destruct prev; try discriminate. apply IH in H; assumption.
      * destruct prev; simpl in H; try discriminate. inversion H. lia.
Qed.

Lemma int_unsigned_nonneg (s : str) (v : Z) :
  Py.int_unsigned s = Some v -> (0 <= v)%Z.
Proof.
  unfold Py.int_unsigned. intros H.
  destruct (Py.scan_digits Py.AtStart 0 s) as [[w rest]|] eqn:E;
    [|discriminate].
  destruct (lstrip_by int_space rest); [|discriminate].
  destruct (N.ltb _ _); [discriminate|].
  inversion H; subst. apply scan_digits_nonneg in E; [exact E | lia].
Qed.

Lemma In_lstrip_by (p : ascii -> bool) (c : ascii) (s : str) :
  In c (lstrip_by p s) -> In c s.
Proof.
  induction s as [|x s IH]; simpl; [tauto|].
  destruct (p x); [|tauto]. intros H. right. apply IH. exact H.
Qed.

Lemma In_strip_by (p : ascii -> bool) (c : ascii) (s : str) :
  In c (strip_by p s) -> In c s.
Proof.
  unfold strip_by, rstrip_by. intros H.
  apply in_rev, In_lstrip_by, in_rev, In_lstrip_by in H. exact H.
Qed.

Lemma In_remove_char (old c : ascii) (s : str) :
  In c (replace_char old [] s) -> In c s.
Proof.
  unfold replace_char. intros H. apply in_flat_map in H.
  destruct H as [x [Hx Hc]]. destruct (Ascii.eqb x old); [contradiction|].
  destruct Hc as [<- | []]. exact Hx.
Qed.

Lemma int_sign (s : str) (v : Z) :
  Py.int s = Some v -> (0 <= v)%Z \/ has_minus s.
Proof.
  unfold Py.int. intros H.
  destruct (lstrip_by int_space s) as [|c t] eqn:E; [discriminate|].
  destruct (Ascii.eqb c "-") eqn:Em.
  - right. apply Ascii.eqb_eq in Em. subst c.
    apply (In_lstrip_by int_space). rewrite E. left. reflexivity.
  - left. destruct (Ascii.eqb c "+");
      apply int_unsigned_nonneg in H; exact H.
Qed.

Lemma clean_vote_cell_minus (cell t : str) :
  clean_vote_cell cell = Some t -> has_minus t -> has_minus cell.
Proof.
  unfold clean_vote_cell, has_minus. intros H Hm.
  destruct (str_eqb _ []); [discriminate|]. inversion H; subst.
  apply In_remove_char, In_strip_by, In_strip_by in Hm. exact Hm.
Qed.

(** *** Where the votes of an emitted row come from *)

Lemma nth_map_strip (idx : nat) (row : csv_row) :
  nth idx (map strip row) [] = strip (nth idx row []).
Proof. exact (map_nth strip row [] idx). Qed.

Lemma emit_vote_origin (c o : str) (row : csv_row)
      (entry : nat * candidate_header) (r : Row) :
  In r (emit_vote c o (map strip row) entry) ->
  exists cell,
    In cell row /\ reads_as cell (votes r)
    /\ ((0 <= votes r)%Z \/ has_minus cell).
Proof.
  destruct entry as [idx [[cand p] w]]. simpl. rewrite length_map.
  destruct (List.length row <=? idx) eqn:L; [contradiction|].
  apply Nat.leb_gt in L. rewrite nth_map_strip.
  destruct (clean_vote_cell _) as [t|] eqn:C; [|contradiction].
  destruct (Py.int t) as [v|] eqn:I; [|contradiction].
  intros [<- | []]. exists (nth idx row []). simpl.
  split; [apply nth_In; exact L|]. split; [exists t; auto|].
  destruct (int_sign _ I) as [Hv | Hm]; [left; exact Hv | right].
  apply In_strip_by with (p := isspace).
  apply (clean_vote_cell_minus _ C Hm).
Qed.

Lemma legacy_step_origin (rows : list csv_row) (st : legacy_state)
      (row : csv_row) :
  In row rows ->
  Forall (legacy_origin rows) (rows_out st) ->
  Forall (legacy_origin rows) (rows_out (legacy_step st row)).
Proof.
  intros Hin H. unfold legacy_step.
  destruct (negb (existsb truthy (map strip row))); [exact H|].
  destruct (is_marker_row _ _); [exact H|].
  destruct (negb (truthy _) && office_truthy _); [exact H|].
  destruct (office_truthy _ && _ && _); [|exact H].
  simpl. apply Forall_app. split; [exact H|].
  apply Forall_flat_map. intros e _. apply Forall_forall. intros r Hr.
  apply emit_vote_origin in Hr. destruct Hr as [cell [Hc [Hr Hs]]].
  exists row, cell. auto.
Qed.

Lemma fold_legacy_origin (rows l : list csv_row) (st : legacy_state) :
  incl l rows ->
  Forall (legacy_origin rows) (rows_out st) ->
  Forall (legacy_origin rows) (rows_out (fold_left legacy_step l st)).
Proof.
  revert st. induction l as [|row l IH]; intros st Hl H; simpl; [exact H|].
  apply IH; [intros x Hx; apply Hl; right; exact Hx|].
  apply legacy_step_origin; [apply Hl; left; reflexivity | exact H].
Qed.

Lemma legacy_rows_origin (rows : list csv_row) :
  Forall (legacy_origin rows) (convert_csv_style_file rows).
Proof.
  apply fold_legacy_origin; [apply incl_refl | constructor].
Qed.

Lemma pipe_line_origin (line : str) (r : Row) :
  In r (pipe_line line) ->
  Py.int (replace_char "," [] (pipe_votes_raw line)) = Some (votes r)
  /\ ((0 <= votes r)%Z \/ has_minus (pipe_votes_raw line)).
Proof.
  unfold pipe_line. fold (pipe_votes_raw line).
  destruct (negb (truthy _)); [contradiction|].
  destruct (List.length _ <? 10); [contradiction|].
  destruct (str_eqb (pipe_votes_raw line) [] || _); [contradiction|].
  destruct (Py.int _) as [v|] eqn:I; [|contradiction].
  intros [<- | []]. simpl. split; [reflexivity|].
  destruct (int_sign _ I) as [Hv | Hm]; [left; exact Hv | right].
  apply In_remove_char in Hm. exact Hm.
Qed.

Lemma pipe_rows_origin (lines : list str) :
  Forall (pipe_origin lines) (convert_pipe_style_file lines).
Proof.
  apply Forall_forall. intros r Hr. apply in_flat_map in Hr.
  destruct Hr as [line [Hl Hr]]. apply pipe_line_origin in Hr.
  exists line. tauto.
Qed.

Lemma sumZ_negative (l : list Z) :
  (sumZ l < 0)%Z -> exists x, In x l /\ (x < 0)%Z.
Proof.
  induction l as [|x l IH]; simpl; [lia|]. intros H.
  destruct (Z.lt_ge_cases x 0) as [Hx | Hx].
  - exists x. auto.
  - destruct IH as [y [Hy Hneg]]; [lia|]. exists y. auto.
Qed.

Lemma parse_int_negative (value : option str) :
  (parse_int value < 0)%Z -> exists s, value = Some s /\ has_minus s.
Proof.
  destruct value as [s|]; simpl; [|lia].
  destruct (negb (truthy _)); [lia|].
  destruct (Py.int _) as [v|] eqn:I; [|lia].
  intros H. exists s. split; [reflexivity|].
  destruct (int_sign _ I) as [Hv | Hm]; [lia|].
  apply In_remove_char, In_strip_by, In_strip_by in Hm. exact Hm.
Qed.

Lemma dict_lookup_In (d : dict_row) (k : str) (v : option str) :
  dict_lookup d k = Some v -> exists k', In (k', v) d.
Proof.
  induction d as [|[k' v'] d IH]; simpl; [discriminate|].
  destruct (dict_lookup d k) as [w|].
  - intros H. inversion H; subst. destruct (IH eq_refl) as [k0 Hk].
    exists k0. right. exact Hk.
  - destruct (str_eqb k' k); [|discriminate].
    intros H. inversion H; subst. exists k'. left. reflexivity.
Qed.

Lemma make_dict_cell (fieldnames : list str) (row : csv_row) (k s : str) :
  In (k, Some s) (make_dict fieldnames row) -> In s row.
Proof.
  unfold make_dict. intros H. apply in_combine_r in H.
  apply in_app_or in H. destruct H as [H | H].
  - apply in_map_iff in H. destruct H as [x [Hx Hin]].
    inversion Hx; subst. exact Hin.
  - apply repeat_spec in H. discriminate.
Qed.

Lemma parse_int_reads (value : option str) :
  parse_int value = 0%Z
  \/ exists s, value = Some s /\ reads_as s (parse_int value).
Proof.
  destruct value as [s|]; [|left; reflexivity]. simpl.
  destruct (truthy (strip_quote (strip s))) eqn:T; [|left; reflexivity].
  simpl. destruct (Py.int _) as [v|] eqn:I; [|left; reflexivity].
  right. exists s. split; [reflexivity|].
  unfold reads_as, clean_vote_cell. unfold strip.
  rewrite strip_by_idem. fold (strip s).
  destruct (strip_quote (strip s)) as [|c t]; [discriminate|].
  simpl str_eqb. cbv iota. eexists. split; [reflexivity | exact I].
Qed.

Lemma dict_get_cell (fieldnames : list str) (row : csv_row) (col s : str) :
  dict_get (make_dict fieldnames row) col (Some []) = Some s ->
  s = [] \/ In s row.
Proof.
  unfold dict_get.
  destruct (dict_lookup (make_dict fieldnames row) col) as [v|] eqn:L.
  - intros ->. apply dict_lookup_In in L. destruct L as [k Hk].
    right. apply (make_dict_cell _ _ _ _ Hk).
  - intros H. inversion H. left. reflexivity.
Qed.

Lemma modern_term_origin (fieldnames : list str) (row : csv_row)
      (col : str) :
  let z := parse_int (dict_get (make_dict fieldnames row) col (Some [])) in
  z = 0%Z \/ exists cell, In cell row /\ reads_as cell z.
Proof.
  intros z. unfold z.
  destruct (parse_int_reads
              (dict_get (make_dict fieldnames row) col (Some [])))
    as [H0 | [s [Hs Hr]]]; [left; exact H0|].
  destruct (dict_get_cell _ _ _ Hs) as [-> | Hin].
  - left. rewrite Hs. reflexivity.
  - right. exists s. split; [exact Hin | exact Hr].
Qed.

Lemma modern_row_sign (fieldnames : list str) (row : csv_row) :
  (0 <= modern_votes fieldnames row)%Z
  \/ exists cell, In cell row /\ has_minus cell.
Proof.
  rewrite modern_votes_eq.
  match goal with |- (0 <= sumZ ?l)%Z \/ _ =>
    destruct (Z.lt_ge_cases (sumZ l) 0) as [Hneg | Hpos] end;
    [right | left; exact Hpos].
  apply sumZ_negative in Hneg. destruct Hneg as [x [Hx Hneg]].
  apply in_map_iff in Hx. destruct Hx as [col [<- _]].
  apply parse_int_negative in Hneg. destruct Hneg as [s [Hs Hm]].
  destruct (dict_get_cell _ _ _ Hs) as [-> | Hin]; [contradiction|].
  exists s. auto.
Qed.

Lemma modern_rows_origin (rows : list csv_row) :
  Forall (modern_origin rows) (convert_modern_precinct_csv rows).
Proof.
  unfold convert_modern_precinct_csv.
  destruct rows as [|fieldnames data]; [constructor|].
  destruct (is_blank_row fieldnames); [constructor|].
  apply Forall_forall. intros r Hr. apply in_map_iff in Hr.
  destruct Hr as [row [<- Hrow]]. apply filter_In in Hrow.
  destruct Hrow as [Hrow _].
  exists fieldnames, data, row,
    (map (fun col =>
            parse_int (dict_get (make_dict fieldnames row) col (Some [])))
         (filter is_vote_column fieldnames)).
  split; [reflexivity|]. split; [exact Hrow|]. split; [reflexivity|].
  split; [apply (modern_votes_eq fieldnames row)|].
  split; [|apply (modern_row_sign fieldnames row)].
  apply Forall_forall. intros z Hz. apply in_map_iff in Hz.
  destruct Hz as [col [<- _]]. apply modern_term_origin.
Qed.

(** C1, as amended: every row that the three extractors emit carries in
    votes an integer that [int] read from the input, never a blank or
    non-numeric value: in the pivoted-legacy layout the value of a cell
    of an input row, in the pipe-delimited layout the value of the vote
    field of an input line, in the modern layout a sum of terms that are
    each zero or the value of a cell of the data row the output row
    comes from.  It is non-negative unless a cell of that same row,
    respectively the vote field of that line, carries a minus sign,
    which [int] accepts. *)
Theorem votes_are_integers_read_by_int :
  (forall rows, Forall (legacy_origin rows) (convert_csv_style_file rows))
  /\ (forall lines, Forall (pipe_origin lines) (convert_pipe_style_file lines))
  /\ (forall rows,
         Forall (modern_origin rows) (convert_modern_precinct_csv rows)).
Proof.
  split; [exact legacy_rows_origin|].
  split; [exact pipe_rows_origin | exact modern_rows_origin].
Qed.

(** C1, counterexample: a county row whose vote cell reads -5 yields a
    row with votes -5. *)
Lemma legacy_negative_votes :
  map votes (convert_csv_style_file negative_csv) = [(-5)%Z; 80%Z]
  /\ ~ Forall (fun r => (0 <= votes r)%Z)
              (convert_csv_style_file negative_csv).
Proof.
  split; [vm_compute; reflexivity|].
  intros H. rewrite Forall_forall in H.
  specialize (H (mkRow (lit "Somerset") [] (lit "Governor") [] (lit "DEM")
                       (lit "Alice") (-5) [])).
  assert (In (mkRow (lit "Somerset") [] (lit "Governor") [] (lit "DEM")
                    (lit "Alice") (-5) [])
             (convert_csv_style_file negative_csv)) as Hin
      by (vm_compute; left; reflexivity).
  apply H in Hin. simpl in Hin. lia.
Qed.

(** *** Blank and non-numeric vote cells *)

Lemma emit_vote_unreadable (c o : str) (row : csv_row) (idx : nat)
      (e : candidate_header) :
  unreadable (nth idx row []) ->
  emit_vote c o (map strip row) (idx, e) = [].
Proof.
  intros H. destruct e as [[cand p] w]. simpl. rewrite length_map.
  destruct (List.length row <=? idx); [reflexivity|].
  rewrite nth_map_strip.
  destruct (clean_vote_cell _) as [t|] eqn:C; [|reflexivity].
  destruct (Py.int t) as [v|] eqn:I; [|reflexivity].
  exfalso. apply (H v). exists t. auto.
Qed.

Lemma legacy_step_unreadable (st : legacy_state) (row : csv_row) :
  (forall cell, In cell row -> unreadable cell) ->
  rows_out (legacy_step st row) = rows_out st.
Proof.
  intros H. unfold legacy_step.
  destruct (negb (existsb truthy (map strip row))); [reflexivity|].
  destruct (is_marker_row _ _); [reflexivity|].
  destruct (negb (truthy _) && office_truthy _); [reflexivity|].
  destruct (office_truthy _ && _ && _); [|reflexivity].
  simpl. rewrite <- app_nil_r. f_equal.
  apply incl_l_nil. intros r Hr. apply in_flat_map in Hr.
  destruct Hr as [e [_ Hr]]. apply emit_vote_origin in Hr.
  destruct Hr as [cell [Hc [[t Ht] _]]].
  exfalso. apply (H cell Hc (votes r)). exists t. exact Ht.
Qed.

Lemma pipe_line_unreadable (line : str) :
  pipe_unreadable line -> pipe_line line = [].
Proof.
  unfold pipe_unreadable, pipe_line. fold (pipe_votes_raw line). intros H.
  destruct (negb (truthy _)); [reflexivity|].
  destruct (List.length _ <? 10); [reflexivity|].
  destruct (str_eqb (pipe_votes_raw line) [] || _); [reflexivity|].
  rewrite H. reflexivity.
Qed.

Lemma parse_int_unreadable (s : str) :
  unreadable s -> parse_int (Some s) = 0%Z.
Proof.
  intros H. simpl. destruct (truthy (strip_quote (strip s))) eqn:T;
    [|reflexivity]. simpl.
  destruct (Py.int _) as [v|] eqn:I; [|reflexivity].
  exfalso. apply (H v). unfold reads_as, clean_vote_cell.
  unfold strip. rewrite strip_by_idem. fold (strip s).
  destruct (strip_quote (strip s)) as [|c t]; [discriminate|].
  simpl str_eqb. cbv iota. eexists. split; [reflexivity | exact I].
Qed.

Lemma modern_emits_every_row (fieldnames : list str) (data : list csv_row) :
  fieldnames <> [] ->
  List.length (convert_modern_precinct_csv (fieldnames :: data))
  = List.length (filter (fun row => negb (is_blank_row row)) data).
Proof.
  intros H. unfold convert_modern_precinct_csv.
  destruct fieldnames; [congruence|]. simpl is_blank_row. cbv iota.
  apply length_map.
Qed.

(** C2, as amended: in the pivoted-legacy and the pipe-delimited
    extractor a vote cell that is blank or non-numeric yields no output
    row, for that candidate position or for that line: it is dropped
    without a placeholder and without an error.  In the modern extractor
    such a cell counts as zero in the vote total of its row, and the row
    is emitted all the same: every non-blank data row gives one output
    row. *)
Theorem unreadable_vote_cells :
  (forall c o row idx e,
      unreadable (nth idx row []) ->
      emit_vote c o (map strip row) (idx, e) = [])
  /\ (forall st row,
         (forall cell, In cell row -> unreadable cell) ->
         rows_out (legacy_step st row) = rows_out st)
  /\ (forall before line after,
         pipe_unreadable line ->
         convert_pipe_style_file (before ++ line :: after)
         = convert_pipe_style_file (before ++ after))
  /\ (forall s, unreadable s -> parse_int (Some s) = 0%Z)
  /\ (forall fieldnames data,
         fieldnames <> [] ->
         List.length (convert_modern_precinct_csv (fieldnames :: data))
         = List.length (filter (fun row => negb (is_blank_row row)) data)).
Proof.
  split; [exact emit_vote_unreadable|].
  split; [exact legacy_step_unreadable|].
  split; [|split; [exact parse_int_unreadable | exact modern_emits_every_row]].
  intros before line after H. unfold convert_pipe_style_file.
  rewrite !flat_map_app. simpl. rewrite (pipe_line_unreadable H).
  reflexivity.
Qed.

Lemma unreadable_word : unreadable (lit "n/a").
Proof.
  intros v [t [Ht It]]. vm_compute in Ht. inversion Ht; subst.
  vm_compute in It. discriminate.
Qed.

Lemma unreadable_blank : unreadable (lit "").
Proof. intros v [t [Ht It]]. vm_compute in Ht. discriminate. Qed.

Lemma unreadable_name : unreadable (lit "Somerset").
Proof.
  intros v [t [Ht It]]. vm_compute in Ht. inversion Ht; subst.
  vm_compute in It. discriminate.
Qed.

Lemma unreadable_vote_cells_witness :
  emit_vote [] [] (map strip [lit "Somerset"; lit "n/a"])
            (1, sample_header_entry) = []
  /\ rows_out (legacy_step sample_state [lit "Somerset"; lit ""])
     = rows_out sample_state
  /\ convert_pipe_style_file ([] ++ sample_null_line :: [])
     = convert_pipe_style_file ([] ++ [])
  /\ parse_int (Some (lit "n/a")) = 0%Z
  /\ List.length (convert_modern_precinct_csv blank_votes_csv) = 2.
Proof.
  destruct unreadable_vote_cells as [H1 [H2 [H3 [H4 H5]]]].
  split; [apply H1; exact unreadable_word|].
  split.
  { apply H2. intros cell [<- | [<- | []]];
      [exact unreadable_name | exact unreadable_blank]. }
  split; [apply H3; reflexivity|].
  split; [apply H4; exact unreadable_word|].
  apply (H5 (first_row blank_votes_csv) (tl blank_votes_csv)).
  discriminate.
Defined.

(** C2, counterexample: in the modern layout a row whose only vote cell
    is blank, and one whose vote cell reads n/a, are both emitted, with
    votes zero. *)
Lemma modern_blank_votes_emitted :
  unreadable (lit "") /\ unreadable (lit "n/a")
  /\ map (fun r => (candidate r, votes r))
         (convert_modern_precinct_csv blank_votes_csv)
     = [(lit "Alice", 0%Z); (lit "Bob", 0%Z)].
Proof.
  split; [exact unreadable_blank|].
  split; [exact unreadable_word|].
  vm_compute. reflexivity.
Qed.

(** *** The modern extractor: the total over the vote columns *)

Lemma contains_spec (sub s : str) :
  contains sub s = true <-> has_substring sub s.
Proof.
  unfold has_substring. split.
  - induction s as [|c s IH]; simpl; intros H.
    + rewrite orb_false_r in H. apply startswith_inv in H.
      destruct H as [t Ht]. exists [], t. exact Ht.
    + apply orb_true_iff in H. destruct H as [H | H].
      * apply startswith_inv in H. destruct H as [t Ht].
        exists [], t. exact Ht.
      * destruct (IH H) as [p [q Hs]]. exists (c :: p), q.
        simpl. rewrite Hs. reflexivity.
  - intros [p [q ->]]. induction p as [|c p IH].
    + simpl app. destruct (sub ++ q) as [|d t] eqn:E; simpl.
      * destruct sub; [reflexivity | discriminate E].
      * rewrite <- E, startswith_app. reflexivity.
    + simpl. rewrite IH. apply orb_true_r.
Qed.

Lemma is_vote_column_spec (h : str) :
  is_vote_column h = true <-> vote_header h.
Proof.
  unfold is_vote_column, vote_header. split.
  - intros H. apply andb_true_iff in H. destruct H as [H Ha].
    apply andb_true_iff in H. destruct H as [_ Hv].
    split; [apply contains_spec; exact Hv|].
    intros Hc. apply contains_spec in Hc. rewrite Hc in Ha. discriminate.
  - intros [Hv Ha]. pose proof Hv as Hv'. apply contains_spec in Hv.
    rewrite Hv. destruct (contains (lit "Against") h) eqn:E.
    + exfalso. apply Ha, contains_spec. exact E.
    + destruct h as [|c h]; [|reflexivity].
      destruct Hv' as [p [q Hs]]. destruct p; discriminate Hs.
Qed.

Lemma reads_as_parse_int (s : str) (v : Z) :
  reads_as s v -> parse_int (Some s) = v.
Proof.
  intros [t [Ht Hi]]. unfold clean_vote_cell in Ht.
  unfold strip in Ht. rewrite strip_by_idem in Ht. fold (strip s) in Ht.
  simpl. destruct (strip_quote (strip s)) as [|c u]; [discriminate Ht|].
  simpl in Ht. injection Ht as <-. simpl. rewrite Hi. reflexivity.
Qed.

Lemma parse_int_value (c : option str) : cell_value c (parse_int c).
Proof.
  destruct c as [s|]; [|constructor].
  destruct (clean_vote_cell (strip s)) as [t|] eqn:C.
  - destruct (Py.int t) as [v|] eqn:I.
    + assert (reads_as s v) as Hr by (exists t; auto).
      rewrite (reads_as_parse_int Hr). apply value_read. exact Hr.
    + assert (unreadable s) as Hu
          by (intros v [t' [Ct It]]; congruence).
      rewrite (parse_int_unreadable Hu). apply value_unreadable. exact Hu.
  - assert (unreadable s) as Hu
        by (intros v [t' [Ct It]]; congruence).
    rewrite (parse_int_unreadable Hu). apply value_unreadable. exact Hu.
Qed.

Lemma cell_value_parse_int (c : option str) (v : Z) :
  cell_value c v -> parse_int c = v.
Proof.
  intros H. destruct H as [s z Hr | s Hu |].
  - apply reads_as_parse_int. exact Hr.
  - apply parse_int_unreadable. exact Hu.
  - reflexivity.
Qed.

Lemma dict_lookup_selected (f : str -> bool) (d : dict_row) (k : str)
      (v : option str) :
  NoDup (filter f (map fst d)) -> f k = true -> In (k, v) d ->
  dict_lookup d k = Some v.
Proof.
  intros Hnd Hf. induction d as [|[k' v'] d IH]; intros Hin;
    [contradiction|].
  simpl in Hnd. simpl. destruct Hin as [Heq | Hin].
  - injection Heq as -> ->. rewrite Hf in Hnd.
    inversion Hnd as [|? ? Hnotin _]; subst.
    rewrite dict_lookup_absent.
    + rewrite str_eqb_refl. reflexivity.
    + intros Hk. apply Hnotin. apply filter_In. auto.
  - assert (NoDup (filter f (map fst d))) as Hnd'
        by (destruct (f k'); [inversion Hnd; assumption | exact Hnd]).
    rewrite (IH Hnd' Hin). reflexivity.
Qed.

Lemma vote_headers_NoDup (fieldnames : list str) :
  vote_headers_distinct fieldnames ->
  NoDup (filter is_vote_column fieldnames).
Proof.
  unfold vote_headers_distinct.
  induction fieldnames as [|h fs IH]; intros H; simpl; [constructor|].
  assert (NoDup (filter is_vote_column fs)) as Hfs.
  { apply IH. intros i j x Hi Hj Hx.
    assert (S i = S j) as E by (apply (H (S i) (S j) x); assumption).
    lia. }
  destruct (is_vote_column h) eqn:E; [|exact Hfs].
  constructor; [|exact Hfs]. intros Hin. apply filter_In in Hin.
  destruct Hin as [Hin _]. apply In_nth_error in Hin.
  destruct Hin as [j Hj].
  assert (0 = S j) as E0
      by (apply (H 0 (S j) h);
          [reflexivity | exact Hj | apply is_vote_column_spec; exact E]).
  discriminate E0.
Qed.

Lemma total_over_columns (D l : dict_row) :
  (forall k v, In (k, v) l -> is_vote_column k = true ->
               dict_lookup D k = Some v) ->
  columns_total l
    (sumZ (map (fun col => parse_int (dict_get D col (Some [])))
               (filter is_vote_column (map fst l)))).
Proof.
  induction l as [|[k v] l IH]; intros H; [constructor|].
  assert (forall k' v', In (k', v') l -> is_vote_column k' = true ->
                        dict_lookup D k' = Some v') as H'
      by (intros k' v' Hin; apply H; right; exact Hin).
  cbn [map fst filter]. destruct (is_vote_column k) eqn:E.
  - cbn [map sumZ fold_right]. unfold dict_get at 1.
    rewrite (H k v (or_introl eq_refl) E).
    apply total_vote;
      [apply is_vote_column_spec; exact E | apply parse_int_value
       | apply IH; exact H'].
  - apply total_other; [|apply IH; exact H'].
    intros Hv. apply is_vote_column_spec in Hv. congruence.
Qed.

Lemma columns_total_sum (l : dict_row) (z : Z) :
  columns_total l z -> z = column_sum l.
Proof.
  intros H. induction H as [|h c rest v z Hh Hc _ IH|h c rest z Hh _ IH].
  - reflexivity.
  - simpl. apply is_vote_column_spec in Hh. rewrite Hh.
    rewrite (cell_value_parse_int Hc), IH. reflexivity.
  - simpl. destruct (is_vote_column h) eqn:E.
    + exfalso. apply Hh, is_vote_column_spec. exact E.
    + rewrite IH. lia.
Qed.

Lemma Forall2_map_right (A B : Type) (P : A -> B -> Prop) (f : A -> B)
      (l : list A) :
  (forall a, In a l -> P a (f a)) -> Forall2 P l (map f l).
Proof.
  induction l as [|a l IH]; intros H; simpl; constructor.
  - apply H. left. reflexivity.
  - apply IH. intros b Hb. apply H. right. exact Hb.
Qed.

(** C5, as amended: in the modern extractor, when no header that
    contains Votes and not Against is written over two columns, every
    non-blank data row gives, in order, an output row whose votes field
    is the sum, over exactly the columns whose header contains Votes and
    not Against (letter case as written), of the integer value of the
    cell, which is zero for a cell that is missing, blank or not
    numeric; for Election Day Votes 10, Early Votes 5 and Provisional
    Against Votes 3 the total is 15. *)
Theorem modern_votes_sum_of_vote_columns :
  (forall (fieldnames : list str) (data : list csv_row),
      fieldnames <> [] ->
      vote_headers_distinct fieldnames ->
      Forall2 (fun row r =>
                 columns_total (make_dict fieldnames row) (votes r))
              (filter (fun row => negb (is_blank_row row)) data)
              (convert_modern_precinct_csv (fieldnames :: data)))
  /\ map votes (convert_modern_precinct_csv [method_fieldnames; method_row])
     = [15%Z].
Proof.
  split; [|vm_compute; reflexivity].
  intros fieldnames data Hne Hd. unfold convert_modern_precinct_csv.
  destruct fieldnames as [|h0 fs]; [congruence|].
  simpl is_blank_row. cbv iota.
  apply Forall2_map_right. intros row _.
  fold (modern_votes (h0 :: fs) row). rewrite modern_votes_eq.
  pose proof (@total_over_columns (make_dict (h0 :: fs) row)
                (make_dict (h0 :: fs) row)) as H.
  rewrite make_dict_keys in H. apply H. intros k v Hin Hk.
  apply (@dict_lookup_selected is_vote_column); [|exact Hk | exact Hin].
  rewrite make_dict_keys. apply vote_headers_NoDup. exact Hd.
Qed.

Lemma modern_votes_sum_of_vote_columns_witness :
  Forall2 (fun row r =>
             columns_total (make_dict notes_fieldnames row) (votes r))
          [notes_row]
          (convert_modern_precinct_csv [notes_fieldnames; notes_row])
  /\ map votes (convert_modern_precinct_csv [notes_fieldnames; notes_row])
     = [1205%Z].
Proof.
  split; [|reflexivity].
  apply (proj1 modern_votes_sum_of_vote_columns notes_fieldnames
               [notes_row]).
  - discriminate.
  - intros i j h Hi Hj [Hv _].
    destruct i as [|[|[|[|i]]]]; simpl in Hi;
      try (destruct i; discriminate Hi);
      injection Hi as <-;
      try (exfalso; apply contains_spec in Hv; vm_compute in Hv;
           discriminate Hv);
      destruct j as [|[|[|[|j]]]]; simpl in Hj;
        try (destruct j; discriminate Hj);
        try reflexivity; discriminate Hj.
Defined.

(** C5, counterexample: with the header Early Votes written over two
    columns holding 5 and 7, the extractor reads the later cell for both
    and reports 14, while the two columns sum to 12. *)
Lemma modern_votes_duplicate_header :
  modern_votes twice_fieldnames twice_row = 14%Z
  /\ column_sum (make_dict twice_fieldnames twice_row) = 12%Z
  /\ modern_votes twice_fieldnames twice_row
     <> column_sum (make_dict twice_fieldnames twice_row)
  /\ ~ columns_total (make_dict twice_fieldnames twice_row)
                     (modern_votes twice_fieldnames twice_row).
Proof.
  split; [vm_compute; reflexivity|].
  split; [vm_compute; reflexivity|].
  split; [vm_compute; discriminate|].
  intros H. apply columns_total_sum in H. vm_compute in H. discriminate H.
Qed.

(** *** Leftmost matches *)

Lemma re_search_some (A : Type) (m : str -> option A) (s p : str) (a : A) :
  Re.re_search m s = Some (p, a) ->
  exists t,
    s = p ++ t /\ m t = Some a
    /\ forall p1 p2, p = p1 ++ p2 -> p2 <> [] -> m (p2 ++ t) = None.
Proof.
  revert p. induction s as [|c s IH]; intros p H; simpl in H.
  - destruct (m []) eqn:E; [|discriminate]. inversion H; subst.
    exists []. split; [reflexivity|]. split; [exact E|].
    intros p1 p2 Hp Hne. destruct p1; destruct p2; simpl in Hp;
      congruence.
  - destruct (m (c :: s)) eqn:E.
    + inversion H; subst. exists (c :: s). split; [reflexivity|].
      split; [exact E|]. intros p1 p2 Hp Hne.
      destruct p1; destruct p2; simpl in Hp; congruence.
    + destruct (Re.re_search m s) as [[q b]|] eqn:R; [|discriminate].
      inversion H; subst. destruct (IH q eq_refl) as [t [Hs [Hm Hleft]]].
      exists t. split; [simpl; congruence|]. split; [exact Hm|].
      intros p1 p2 Hp Hne. destruct p1 as [|x p1]; simpl in Hp.
      * subst p2. simpl. rewrite <- Hs. exact E.
      * inversion Hp; subst. apply (Hleft p1 p2 eq_refl Hne).
Qed.

Lemma re_search_intro (A : Type) (m : str -> option A) (p t : str) (a : A) :
  m t = Some a ->
  (forall p1 p2, p = p1 ++ p2 -> p2 <> [] -> m (p2 ++ t) = None) ->
  Re.re_search m (p ++ t) = Some (p, a).
Proof.
  intros Hm. induction p as [|c p IH]; intros Hleft.
  - simpl. destruct t; simpl; rewrite Hm; reflexivity.
  - assert (m (c :: p ++ t) = None) as E
        by (apply (Hleft [] (c :: p)); [reflexivity | discriminate]).
    simpl. rewrite E. rewrite IH; [reflexivity|]. intros p1 p2 Hp Hne.
    apply (Hleft (c :: p1) p2); [simpl; congruence | exact Hne].
Qed.

(** *** The suffix patterns *)

Lemma eol_inv (s r : str) :
  Re.eol s = Some r -> r = s /\ (s = [] \/ s = [newline]).
Proof.
  destruct s as [|c [|d s]]; simpl; intros H.
  - inversion H. auto.
  - destruct (Ascii.eqb c newline) eqn:E; [|discriminate].
    apply Ascii.eqb_eq in E. inversion H; subst. auto.
  - discriminate.
Qed.

Lemma ci_prefix_inv (pat s r : str) :
  Re.ci_prefix pat s = Some r ->
  exists pre, s = pre ++ r /\ List.length pre = List.length pat.
Proof.
  revert s. induction pat as [|p pat IH]; intros s H; simpl in H.
  - inversion H. exists []. auto.
  - destruct s as [|c s]; [discriminate|].
    destruct (Re.ci_eqb p c); [|discriminate].
    destruct (IH s H) as [pre [-> Hl]]. exists (c :: pre). simpl. auto.
Qed.

Lemma lstrip_suffix (p : ascii -> bool) (s : str) :
  exists ws, s = ws ++ lstrip_by p s /\ forallb p ws = true.
Proof.
  induction s as [|c s IH]; simpl; [exists []; auto|].
  destruct (p c) eqn:E.
  - destruct IH as [ws [Hs Hw]]. exists (c :: ws). simpl.
    rewrite E, Hw. split; [congruence | reflexivity].
  - exists []. auto.
Qed.

Lemma suffix_word_inv (w : string) (m rest : str) :
  suffix_word w m = Some rest ->
  (exists c m', m = c :: m' /\ isspace c = true)
  /\ (rest = [] \/ rest = [newline])
  /\ (exists body, m = body ++ rest)
  /\ List.length (lstrip_by isspace m) <= List.length (lit w) + 1.
Proof.
  unfold suffix_word, Re.ws_plus, Re.lit_ci. intros H.
  destruct m as [|c m']; [discriminate|].
  destruct (isspace c) eqn:Ec; [|discriminate].
  destruct (Re.ci_prefix (lit w) (lstrip_by isspace m')) as [r|] eqn:E;
    [|discriminate].
  apply ci_prefix_inv in E. destruct E as [pre [Hpre Hlen]].
  apply eol_inv in H. destruct H as [-> Hr].
  destruct (lstrip_suffix isspace m') as [ws [Hws _]].
  split; [eauto|]. split; [exact Hr|]. split.
  - exists (c :: ws ++ pre). rewrite Hws at 1. rewrite Hpre.
    simpl. rewrite <- app_assoc. reflexivity.
  - simpl. rewrite Ec, Hpre, length_app, Hlen.
    destruct Hr as [-> | ->]; simpl; lia.
Qed.

Lemma suffix_word_prepend (w : string) (c : ascii) (m rest : str) :
  isspace c = true ->
  suffix_word w m = Some rest -> suffix_word w (c :: m) = Some rest.
Proof.
  unfold suffix_word, Re.ws_plus. intros Hc H. rewrite Hc.
  destruct m as [|d m']; [discriminate|].
  destruct (isspace d) eqn:Ed; [|discriminate].
  simpl. rewrite Ed. exact H.
Qed.

Lemma suffix_word_prepend_all (w : string) (ws m rest : str) :
  forallb isspace ws = true ->
  suffix_word w m = Some rest -> suffix_word w (ws ++ m) = Some rest.
Proof.
  induction ws as [|c ws IH]; simpl; intros Hw H; [exact H|].
  apply andb_true_iff in Hw. destruct Hw as [Hc Hw].
  apply suffix_word_prepend; [exact Hc | apply IH; assumption].
Qed.

Lemma lstrip_app_cases (p : ascii -> bool) (q : str) :
  forallb p q = true
  \/ exists u, u <> [] /\ forall t, lstrip_by p (q ++ t) = u ++ t.
Proof.
  induction q as [|c q IH]; [left; reflexivity|]. simpl.
  destruct (p c) eqn:E.
  - destruct IH as [Hall | [u [Hu Ht]]]; [left; exact Hall | right].
    exists u. auto.
  - right. exists (c :: q). split; [discriminate | reflexivity].
Qed.

(** The text before the leftmost match of a suffix pattern is either
    empty or ends with a character that is not white space. *)
Lemma suffix_word_before (w : string) (s p rest : str) :
  Re.re_search (suffix_word w) s = Some (p, rest) ->
  no_lead isspace (rev p).
Proof.
  intros H. apply re_search_some in H.
  destruct H as [t [_ [Hm Hleft]]].
  destruct (rev p) as [|c q] eqn:E; [exact I|]. simpl.
  destruct (isspace c) eqn:Ec; [|reflexivity].
  assert (p = rev q ++ [c]) as Hp.
  { rewrite <- (rev_involutive p), E. reflexivity. }
  pose proof (@suffix_word_prepend w c t rest Ec Hm) as Hpre.
  specialize (Hleft (rev q) [c] Hp).
  change ([c] ++ t) with (c :: t) in Hleft.
  rewrite Hleft in Hpre by discriminate. discriminate.
Qed.

(** On trimmed text a suffix pattern matches after a non-empty part
    and up to the very end. *)
Lemma suffix_word_on_trimmed (w : string) (x p rest : str) :
  trimmed isspace x ->
  Re.re_search (suffix_word w) x = Some (p, rest) ->
  rest = [] /\ p <> [] /\ trimmed isspace p.
Proof.
  intros [Hl Hr] H. pose proof (@suffix_word_before w x p rest H) as Hp.
  apply re_search_some in H. destruct H as [t [Hx [Hm _]]].
  apply suffix_word_inv in Hm.
  destruct Hm as [[c [m' [Ht Hc]]] [Hrest [[body Hbody] _]]].
  assert (rest = []) as ->.
  { destruct Hrest as [-> | ->]; [reflexivity|]. exfalso.
    rewrite Hx, Hbody, app_assoc, rev_app_distr in Hr. simpl in Hr.
    vm_compute in Hr. discriminate. }
  split; [reflexivity|].
  destruct p as [|a p].
  - exfalso. simpl in Hx. subst x t. simpl in Hl. congruence.
  - split; [discriminate|]. split; [|exact Hp].
    subst x. simpl in Hl. exact Hl.
Qed.

Lemma no_lead_app (p : ascii -> bool) (a b : str) :
  a <> [] -> no_lead p a -> no_lead p (a ++ b).
Proof. destruct a; simpl; [congruence | auto]. Qed.

Lemma re_sub_suffix_word_trimmed (w : string) (repl x : str) :
  no_lead isspace (rev repl) ->
  trimmed isspace x ->
  trimmed isspace (Re.re_sub (suffix_word w) repl x).
Proof.
  intros Hrepl Hx. unfold Re.re_sub.
  destruct (Re.re_search (suffix_word w) x) as [[p rest]|] eqn:E;
    [|exact Hx].
  destruct (@suffix_word_on_trimmed w x p rest Hx E) as [-> [Hne [Hpl Hpr]]].
  rewrite app_nil_r. split.
  - apply no_lead_app; assumption.
  - rewrite rev_app_distr. destruct repl as [|a repl].
    + simpl. exact Hpr.
    + apply no_lead_app; [|exact Hrepl].
      intros H. apply (f_equal (@List.length ascii)) in H.
      rewrite length_rev in H. discriminate.
Qed.

Lemma re_sub_suffix_word_idem (w : string) (repl x : str) :
  List.length repl = List.length (lit w) + 1 ->
  (forall rest, rest = [] \/ rest = [newline] ->
                suffix_word w (repl ++ rest) = Some rest) ->
  Re.re_sub (suffix_word w) repl (Re.re_sub (suffix_word w) repl x)
  = Re.re_sub (suffix_word w) repl x.
Proof.
  intros Hlen Hrepl. unfold Re.re_sub at 2 3.
  destruct (Re.re_search (suffix_word w) x) as [[p rest]|] eqn:E.
  - apply re_search_some in E. destruct E as [t [Hx [Hm Hleft]]].
    pose proof (@suffix_word_inv w t rest Hm) as [_ [Hrest _]].
    assert (Re.re_search (suffix_word w) (p ++ repl ++ rest)
            = Some (p, rest)) as Hs.
    { apply re_search_intro; [apply Hrepl; exact Hrest|].
      intros p1 p2 Hp Hne.
      destruct (suffix_word w (p2 ++ repl ++ rest)) as [r'|] eqn:F;
        [exfalso | reflexivity].
      destruct (lstrip_app_cases isspace p2) as [Hall | [u [Hu Hstrip]]].
      - pose proof (@suffix_word_prepend_all w p2 t rest Hall Hm) as Hpre.
        rewrite (Hleft p1 p2 Hp Hne) in Hpre. discriminate.
      - apply suffix_word_inv in F. destruct F as [_ [_ [_ F]]].
        rewrite Hstrip, !length_app, Hlen in F.
        destruct u; [congruence | simpl in F; lia]. }
    unfold Re.re_sub. rewrite Hs. reflexivity.
  - unfold Re.re_sub. rewrite E. reflexivity.
Qed.

(** *** The accent replacement commutes with the suffix patterns *)

Lemma replace_tick (s : str) : replace_char "`" (lit "'") s = map tick s.
Proof.
  unfold replace_char. induction s as [|c s IH]; [reflexivity|].
  cbn [flat_map map]. rewrite IH. unfold tick.
  destruct (Ascii.eqb c "`"); reflexivity.
Qed.

Lemma tick_cases (c : ascii) :
  (c = "`"%char /\ tick c = "'"%char) \/ (c <> "`"%char /\ tick c = c).
Proof.
  unfold tick. destruct (Ascii.eqb c "`") eqn:E.
  - left. apply Ascii.eqb_eq in E. auto.
  - right. apply Ascii.eqb_neq in E. auto.
Qed.

Lemma tick_isspace (c : ascii) : isspace (tick c) = isspace c.
Proof. destruct (tick_cases c) as [[-> ->] | [_ ->]]; reflexivity. Qed.

Lemma tick_newline (c : ascii) :
  Ascii.eqb (tick c) newline = Ascii.eqb c newline.
Proof. destruct (tick_cases c) as [[-> ->] | [_ ->]]; reflexivity. Qed.

Lemma tick_ci (p c : ascii) :
  tick_free p -> Re.ci_eqb p (tick c) = Re.ci_eqb p c.
Proof.
  intros [H1 H2]. destruct (tick_cases c) as [[-> ->] | [_ ->]];
    [|reflexivity].
  unfold Re.ci_eqb. apply Ascii.eqb_neq in H1, H2.
  change (lower_char "'") with "'"%char.
  change (lower_char "`") with "`"%char. congruence.
Qed.

Lemma tick_not_backtick (s : str) : ~ In "`"%char (map tick s).
Proof.
  intros H. apply in_map_iff in H. destruct H as [c [Hc _]].
  destruct (tick_cases c) as [[_ E] | [Hne E]]; rewrite E in Hc.
  - discriminate.
  - contradiction.
Qed.

Lemma lstrip_map_tick (s : str) :
  lstrip_by isspace (map tick s) = map tick (lstrip_by isspace s).
Proof.
  induction s as [|c s IH]; [reflexivity|]. simpl.
  rewrite tick_isspace. destruct (isspace c); [exact IH | reflexivity].
Qed.

Lemma ci_prefix_map_tick (pat s : str) :
  Forall tick_free pat ->
  Re.ci_prefix pat (map tick s) = option_map (map tick) (Re.ci_prefix pat s).
Proof.
  intros H. revert s. induction H as [|p pat Hp _ IH]; intros s;
    [reflexivity|].
  destruct s as [|c s]; [reflexivity|]. simpl.
  rewrite (@tick_ci p c Hp). destruct (Re.ci_eqb p c); [apply IH | reflexivity].
Qed.

Lemma eol_map_tick (s : str) :
  Re.eol (map tick s) = option_map (map tick) (Re.eol s).
Proof.
  destruct s as [|c [|d s]]; simpl; try reflexivity.
  rewrite tick_newline. destruct (Ascii.eqb c newline); reflexivity.
Qed.

Lemma suffix_word_map_tick (w : string) (s : str) :
  Forall tick_free (lit w) ->
  suffix_word w (map tick s) = option_map (map tick) (suffix_word w s).
Proof.
  intros Hw. unfold suffix_word, Re.ws_plus, Re.lit_ci.
  destruct s as [|c s]; [reflexivity|].
  cbn -[isspace tick lstrip_by Re.ci_prefix Re.eol lit].
  rewrite tick_isspace. destruct (isspace c); [|reflexivity].
  rewrite lstrip_map_tick, (@ci_prefix_map_tick (lit w) _ Hw).
  destruct (Re.ci_prefix (lit w) (lstrip_by isspace s)); [|reflexivity].
  simpl. apply eol_map_tick.
Qed.

Lemma re_search_map_tick (m : Re.matcher) (s : str) :
  (forall t, m (map tick t) = option_map (map tick) (m t)) ->
  Re.re_search m (map tick s)
  = option_map (fun pa => (map tick (fst pa), map tick (snd pa)))
               (Re.re_search m s).
Proof.
  intros Hm. induction s as [|c s IH].
  - simpl. change [] with (map tick []) at 1. rewrite Hm.
    destruct (m []); reflexivity.
  - simpl. change (tick c :: map tick s) with (map tick (c :: s)).
    rewrite Hm. destruct (m (c :: s)); [reflexivity|]. simpl.
    rewrite IH. destruct (Re.re_search m s) as [[p a]|]; reflexivity.
Qed.

Lemma re_sub_map_tick (w : string) (repl s : str) :
  Forall tick_free (lit w) -> map tick repl = repl ->
  Re.re_sub (suffix_word w) repl (map tick s)
  = map tick (Re.re_sub (suffix_word w) repl s).
Proof.
  intros Hw Hrepl. unfold Re.re_sub.
  rewrite re_search_map_tick
    by (intros t; apply suffix_word_map_tick; exact Hw).
  destruct (Re.re_search (suffix_word w) s) as [[p a]|]; [|reflexivity].
  simpl. rewrite !map_app, Hrepl. reflexivity.
Qed.

Lemma trimmed_map_tick (x : str) :
  trimmed isspace x -> trimmed isspace (map tick x).
Proof.
  assert (forall y, no_lead isspace y -> no_lead isspace (map tick y)) as H.
  { intros [|c y]; simpl; [auto|]. rewrite tick_isspace. auto. }
  intros [Hl Hr]. split; [apply H; exact Hl|].
  rewrite <- map_rev. apply H. exact Hr.
Qed.

Lemma map_tick_idem (x : str) : map tick (map tick x) = map tick x.
Proof.
  pose proof (@replace_char_id "`"%char (lit "'") (map tick x)
                (tick_not_backtick x)) as H.
  rewrite replace_tick in H. exact H.
Qed.

(** *** [normalize_county] applied twice *)

Lemma normalize_county_core (s : str) :
  normalize_county s
  = map tick (table_get COUNTY_FIXES (county_core s) (county_core s)).
Proof. unfold normalize_county. rewrite replace_tick. reflexivity. Qed.

Lemma table_get_cases (d : list (string * string)) (k : str) :
  table_get d k k = k \/ In (table_get d k k) (table_values d).
Proof.
  induction d as [|[k' v] d IH]; simpl; [left; reflexivity|].
  destruct (str_eqb (lit k') k); [right; left; reflexivity|].
  destruct IH as [IH | IH]; [left; exact IH | right; right; exact IH].
Qed.

Lemma county_core_trimmed (s : str) : trimmed isspace (county_core s).
Proof.
  unfold county_core.
  apply re_sub_suffix_word_trimmed; [vm_compute; reflexivity|].
  apply re_sub_suffix_word_trimmed; [exact I|].
  apply strip_by_trimmed.
Qed.

Lemma city_tick_free : Forall tick_free (lit "city").
Proof.
  repeat (constructor; [split; vm_compute; discriminate|]). constructor.
Qed.

Lemma re_sub_city_settled (x : str) :
  let C := lit " City" in
  Re.re_sub (suffix_word "city") C
            (map tick (Re.re_sub (suffix_word "city") C x))
  = map tick (Re.re_sub (suffix_word "city") C x).
Proof.
  intros C. rewrite re_sub_map_tick by (exact city_tick_free || reflexivity).
  f_equal. apply re_sub_suffix_word_idem; [reflexivity|].
  intros rest [-> | ->]; reflexivity.
Qed.

(** C3, as amended: applying [normalize_county] to its own result gives
    that result again whenever the result neither begins nor ends with a
    double quote and does not itself end in white space followed by the
    word County, in any letter case. *)
Theorem normalize_county_twice (s : str) :
  strip_quote (normalize_county s) = normalize_county s ->
  Re.re_search Re.pat_county (normalize_county s) = None ->
  normalize_county (normalize_county s) = normalize_county s.
Proof.
  rewrite (normalize_county_core s).
  destruct (table_get_cases COUNTY_FIXES (county_core s)) as [E | Hv].
  - rewrite E. set (r := map tick (county_core s)). intros Hq Hc.
    assert (trimmed isspace r) as Ht
        by (apply trimmed_map_tick, county_core_trimmed).
    assert (county_core r = r) as Hcore.
    { unfold county_core. unfold strip.
      rewrite (strip_by_fix Ht). fold (strip_quote r). rewrite Hq.
      rewrite (strip_by_fix Ht).
      change Re.pat_county with (suffix_word "County") in Hc.
      unfold Re.re_sub at 2. rewrite Hc.
      unfold r, county_core. apply re_sub_city_settled. }
    rewrite (normalize_county_core r), Hcore.
    rewrite county_fixes_miss by apply tick_not_backtick.
    apply map_tick_idem.
  - intros _ _.
    change (table_values COUNTY_FIXES)
      with [lit "Prince George's"; lit "Queen Anne's"; lit "St. Mary's"]
      in Hv.
    destruct Hv as [H | [H | [H | []]]]; rewrite <- H; reflexivity.
Qed.

Lemma normalize_county_twice_witness :
  normalize_county (normalize_county (lit "Baltimore city"))
  = normalize_county (lit "Baltimore city").
Proof.
  apply (normalize_county_twice (lit "Baltimore city")); reflexivity.
Defined.

(** C3, counterexample: a name that carries the word County twice loses
    one on each pass. *)
Lemma normalize_county_not_idempotent :
  normalize_county (lit "X County County") = lit "X County"
  /\ normalize_county (lit "X County") = lit "X"
  /\ normalize_county (normalize_county (lit "X County County"))
     <> normalize_county (lit "X County County").
Proof.
  split; [reflexivity|]. split; [reflexivity|].
  vm_compute. discriminate.
Qed.

(** ** Further properties *)

(** *** The county normalizer *)

Lemma trimmed_constant_values :
  Forall (trimmed isspace) (table_values COUNTY_FIXES).
Proof. repeat constructor. Qed.

(** X1: a normalized county name never contains a grave accent and
    never begins or ends with white space. *)
Theorem normalize_county_shape (s : str) :
  ~ In "`"%char (normalize_county s)
  /\ trimmed isspace (normalize_county s).
Proof.
  rewrite normalize_county_core. split; [apply tick_not_backtick|].
  apply trimmed_map_tick.
  destruct (table_get_cases COUNTY_FIXES (county_core s)) as [E | Hv].
  - rewrite E. apply county_core_trimmed.
  - pose proof trimmed_constant_values as H.
    rewrite Forall_forall in H. apply H. exact Hv.
Qed.

Lemma county_fixes_then_tick (k : str) :
  map tick (table_get COUNTY_FIXES k k) = map tick k.
Proof.
  unfold COUNTY_FIXES, table_get.
  repeat match goal with
         | |- context [str_eqb ?a k] =>
             let E := fresh "E" in
             destruct (str_eqb a k) eqn:E;
             [apply str_eqb_eq in E; subst k; reflexivity|]
         end.
  reflexivity.
Qed.

(** X2: the lookup in COUNTY_FIXES never changes the outcome: the
    county normalizer gives what stripping, the two suffix
    substitutions and the replacement of grave accents give without
    it. *)
Theorem county_fixes_subsumed (raw : str) :
  normalize_county raw
  = replace_char "`" (lit "'")
      (Re.re_sub Re.pat_city (lit " City")
         (Re.re_sub Re.pat_county [] (strip (strip_quote (strip raw))))).
Proof.
  rewrite normalize_county_core, county_fixes_then_tick, replace_tick.
  reflexivity.
Qed.

Lemma strip_by_fix_inv (p : ascii -> bool) (x : str) :
  strip_by p x = x -> trimmed p x.
Proof. intros H. rewrite <- H. apply strip_by_trimmed. Qed.

Lemma trimmed_app (p : ascii -> bool) (a b : str) :
  a <> [] -> b <> [] -> no_lead p a -> no_lead p (rev b) ->
  trimmed p (a ++ b).
Proof.
  intros Ha Hb Hl Hr. split; [apply no_lead_app; assumption|].
  rewrite rev_app_distr. apply no_lead_app; [|exact Hr].
  intros H. apply (f_equal (@rev ascii)) in H.
  rewrite rev_involutive in H. simpl in H. contradiction.
Qed.

Lemma lstrip_all (p : ascii -> bool) (q : str) :
  forallb p q = true -> lstrip_by p q = [].
Proof.
  induction q as [|c q IH]; simpl; [reflexivity|].
  intros H. apply andb_true_iff in H. destruct H as [Hc H].
  rewrite Hc. apply IH. exact H.
Qed.

Lemma lstrip_app_nonblank (p : ascii -> bool) (q t : str) :
  lstrip_by p q <> [] -> lstrip_by p (q ++ t) = lstrip_by p q ++ t.
Proof.
  induction q as [|c q IH]; simpl; [congruence|].
  destruct (p c); [exact IH | reflexivity].
Qed.

Lemma blank_tail_not_trimmed (p : ascii -> bool) (p1 p2 : str) :
  p2 <> [] -> lstrip_by p p2 = [] -> ~ no_lead p (rev (p1 ++ p2)).
Proof.
  intros Hne Hall H. rewrite rev_app_distr in H.
  destruct (rev p2) as [|c q] eqn:E.
  - apply (f_equal (@rev ascii)) in E. rewrite rev_involutive in E.
    simpl in E. contradiction.
  - simpl in H. assert (In c p2) as Hc
        by (apply in_rev; rewrite E; left; reflexivity).
    clear E. induction p2 as [|x p2 IH]; [contradiction|].
    simpl in Hall. destruct (p x) eqn:Ex; [|discriminate].
    destruct Hc as [-> | Hc]; [congruence|].
    destruct p2 as [|y p2]; [contradiction|].
    apply IH; [discriminate | exact Hall | exact Hc].
Qed.

Lemma re_search_county_suffix (name : str) :
  no_lead isspace (rev name) ->
  Re.re_search (suffix_word "County") (name ++ lit " County")
  = Some (name, []).
Proof.
  intros Hr. apply re_search_intro; [reflexivity|].
  intros p1 p2 Hp Hne.
  destruct (suffix_word "County" (p2 ++ lit " County")) as [r|] eqn:F;
    [exfalso | reflexivity].
  destruct (lstrip_by isspace p2) as [|c u] eqn:E.
  - apply (@blank_tail_not_trimmed isspace p1 p2 Hne E).
    rewrite <- Hp. exact Hr.
  - apply suffix_word_inv in F. destruct F as [_ [_ [_ F]]].
    rewrite lstrip_app_nonblank in F by (rewrite E; discriminate).
    rewrite E, length_app in F. simpl in F. lia.
Qed.

(** X3: a trailing County is dropped without trace: for a non-empty
    name that neither begins nor ends with white space or a quote and
    does not itself end in County, the name followed by a space and
    County normalizes to what the name alone normalizes to. *)
Theorem normalize_county_drops_county (name : str) :
  name <> [] -> bare name ->
  Re.re_search Re.pat_county name = None ->
  normalize_county (name ++ lit " County") = normalize_county name.
Proof.
  intros Hne [[Hl Hr] [Hql Hqr]] Hnone.
  assert (trimmed isspace (name ++ lit " County")) as Hs
      by (apply trimmed_app; [exact Hne | discriminate | exact Hl
                              | reflexivity]).
  assert (trimmed is_quote (name ++ lit " County")) as Hq
      by (apply trimmed_app; [exact Hne | discriminate | exact Hql
                              | reflexivity]).
  rewrite !normalize_county_core. do 2 f_equal;
    unfold county_core, strip, strip_quote, strip_chars;
    fold is_quote;
    rewrite (strip_by_fix Hs), (strip_by_fix Hq), (strip_by_fix Hs),
      (strip_by_fix (conj Hl Hr)), (strip_by_fix (conj Hql Hqr)),
      (strip_by_fix (conj Hl Hr));
    unfold Re.re_sub at 2 4;
    change Re.pat_county with (suffix_word "County") in Hnone;
    rewrite (re_search_county_suffix name Hr), Hnone, app_nil_r;
    reflexivity.
Qed.

Lemma normalize_county_drops_county_witness :
  normalize_county (lit "Prince George`s" ++ lit " County")
  = normalize_county (lit "Prince George`s").
Proof.
  apply normalize_county_drops_county.
  - discriminate.
  - repeat split.
  - reflexivity.
Defined.

(** *** The office normalizer *)

Lemma table_get_hit_or_miss (d : list (string * string)) (k default : str) :
  (In k (table_keys d) /\ In (table_get d k default) (table_values d))
  \/ (~ In k (table_keys d) /\ table_get d k default = default).
Proof.
  induction d as [|[k' v] d IH]; simpl; [right; tauto|].
  destruct (str_eqb (lit k') k) eqn:E.
  - apply str_eqb_eq in E. left. split; left; auto.
  - assert (lit k' <> k) as Hne
        by (intros H; apply str_eqb_eq in H; congruence).
    destruct IH as [[Hk Hv] | [Hk Hv]]; [left | right]; tauto.
Qed.

Lemma office_values_not_keys (v : str) :
  In v (table_values OFFICE_CLEANUPS) ->
  ~ In v (table_keys OFFICE_CLEANUPS)
  /\ trimmed space_or_hyphen v.
Proof.
  intros [<- | [<- | [<- | [<- | []]]]];
    (split; [vm_compute; intuition discriminate | split; reflexivity]).
Qed.

(** X4: a normalized office name is never one of the synonyms that
    OFFICE_CLEANUPS maps away, and it never begins or ends with a space
    or a hyphen. *)
Theorem normalize_office_shape (raw : str) :
  ~ In (normalize_office raw) (table_keys OFFICE_CLEANUPS)
  /\ trimmed space_or_hyphen (normalize_office raw).
Proof.
  unfold normalize_office.
  set (o := strip_chars (lit " -") _).
  destruct (table_get_hit_or_miss OFFICE_CLEANUPS o o) as [[_ Hv] | [Hk ->]].
  - apply office_values_not_keys. exact Hv.
  - split; [exact Hk|]. apply strip_by_trimmed.
Qed.

Lemma re_search_none (A : Type) (m : str -> option A) (x : str) :
  (forall p t, x = p ++ t -> m t = None) -> Re.re_search m x = None.
Proof.
  induction x as [|c x IH]; intros H; simpl.
  - rewrite (H [] [] eq_refl). reflexivity.
  - rewrite (H [] (c :: x) eq_refl). rewrite IH; [reflexivity|].
    intros p t Hx. apply (H (c :: p) t). simpl. congruence.
Qed.

Lemma hyphen_pattern_needs_hyphen (k : Re.matcher) (t : str) :
  ~ In "-"%char t -> Re.ws_star (Re.chr "-" k) t = None.
Proof.
  unfold Re.ws_star, Re.chr. intros H.
  destruct (lstrip_by isspace t) as [|c u] eqn:E; [reflexivity|].
  destruct (Ascii.eqb c "-") eqn:Ec; [|reflexivity].
  apply Ascii.eqb_eq in Ec. subst c. exfalso. apply H.
  apply (In_lstrip_by isspace). rewrite E. left. reflexivity.
Qed.

Lemma re_sub_no_hyphen (k : Re.matcher) (repl x : str) :
  ~ In "-"%char x -> Re.re_sub (Re.ws_star (Re.chr "-" k)) repl x = x.
Proof.
  intros H. unfold Re.re_sub. rewrite re_search_none; [reflexivity|].
  intros p t Hx. apply hyphen_pattern_needs_hyphen.
  intros Hin. apply H. rewrite Hx. apply in_or_app. right. exact Hin.
Qed.

Lemma dot_star_eol_one_line (rest : str) :
  ~ In newline rest -> Re.dot_star_eol rest = Some [].
Proof.
  induction rest as [|c rest IH]; intros H; [reflexivity|]. simpl.
  destruct (Ascii.eqb c newline) eqn:E.
  - apply Ascii.eqb_eq in E. subst c. exfalso. apply H. left. reflexivity.
  - apply IH. intros Hin. apply H. right. exact Hin.
Qed.

Lemma re_search_vote_for (name rest : str) :
  no_lead isspace (rev name) -> ~ In "-"%char name -> ~ In newline rest ->
  Re.re_search Re.pat_vote_for (name ++ lit " - Vote For" ++ rest)
  = Some (name, []).
Proof.
  intros Hr Hh Hn. apply re_search_intro.
  - unfold Re.pat_vote_for, Re.ws_star, Re.chr, Re.lit_ci. simpl.
    apply dot_star_eol_one_line. exact Hn.
  - intros p1 p2 Hp Hne. unfold Re.pat_vote_for, Re.ws_star at 1.
    destruct (lstrip_by isspace p2) as [|c u] eqn:E.
    + exfalso. apply (@blank_tail_not_trimmed isspace p1 p2 Hne E).
      rewrite <- Hp. exact Hr.
    + rewrite lstrip_app_nonblank by (rewrite E; discriminate).
      rewrite E. simpl. destruct (Ascii.eqb c "-") eqn:Ec; [|reflexivity].
      apply Ascii.eqb_eq in Ec. subst c. exfalso. apply Hh.
      rewrite Hp. apply in_or_app. right.
      apply (In_lstrip_by isspace). rewrite E. left. reflexivity.
Qed.

Lemma rev_tail_no_lead (p : ascii -> bool) (a rest : str) :
  a <> [] -> no_lead p (rev a) -> no_lead p (rev rest) ->
  no_lead p (rev (a ++ rest)).
Proof.
  intros Ha Hra Hrr. rewrite rev_app_distr.
  destruct (rev rest) as [|c q] eqn:E; [exact Hra|]. exact Hrr.
Qed.

Lemma strip_trimmed (x : str) : trimmed isspace x -> strip x = x.
Proof. apply strip_by_fix. Qed.

Lemma strip_quote_trimmed (x : str) :
  trimmed is_quote x -> strip_quote x = x.
Proof. apply strip_by_fix. Qed.

(** X5: the marker suffix is dropped without trace: for a non-empty
    office name without hyphen that neither begins nor ends with white
    space or a quote, the name followed by a hyphenated Vote For clause
    (any one-line text after it that does not end in white space or a
    quote) normalizes to what the name alone normalizes to. *)
Theorem normalize_office_drops_vote_for (name rest : str) :
  name <> [] -> bare name -> ~ In "-"%char name ->
  ~ In newline rest ->
  no_lead isspace (rev rest) -> no_lead is_quote (rev rest) ->
  normalize_office (name ++ lit " - Vote For" ++ rest)
  = normalize_office name.
Proof.
  intros Hne [[Hl Hr] [Hql Hqr]] Hh Hn Hrs Hrq.
  set (s := name ++ lit " - Vote For" ++ rest).
  assert (trimmed isspace s) as Hs.
  { split; [apply no_lead_app; assumption|]. unfold s.
    rewrite app_assoc. apply rev_tail_no_lead; [|rewrite rev_app_distr|];
      [destruct name; discriminate | reflexivity | exact Hrs]. }
  assert (trimmed is_quote s) as Hq.
  { split; [apply no_lead_app; assumption|]. unfold s.
    rewrite app_assoc. apply rev_tail_no_lead; [|rewrite rev_app_distr|];
      [destruct name; discriminate | reflexivity | exact Hrq]. }
  unfold normalize_office.
  rewrite (strip_trimmed Hs), (strip_quote_trimmed Hq),
    (strip_trimmed (conj Hl Hr)), (strip_quote_trimmed (conj Hql Hqr)).
  assert (Re.re_sub Re.pat_vote_for [] s = name) as E1.
  { unfold Re.re_sub, s.
    rewrite (re_search_vote_for name rest Hr Hh Hn). apply app_nil_r. }
  assert (Re.re_sub Re.pat_vote_for [] name = name) as E2
      by (apply re_sub_no_hyphen; exact Hh).
  rewrite E1, E2. reflexivity.
Qed.

Lemma normalize_office_drops_vote_for_witness :
  normalize_office (lit "Comptroller" ++ lit " - Vote For" ++ lit " One")
  = normalize_office (lit "Comptroller").
Proof.
  apply normalize_office_drops_vote_for.
  - discriminate.
  - repeat split.
  - vm_compute. intuition discriminate.
  - vm_compute. intuition discriminate.
  - reflexivity.
  - reflexivity.
Defined.

(** *** The candidate cell parser: white space and parentheses *)

Lemma collapse_single_spaced (x : str) :
  (forall b, single_spaced b (Re.collapse_from true x) = true)
  /\ single_spaced false (Re.collapse_from false x) = true.
Proof.
  induction x as [|c x [IH1 IH2]]; [split; reflexivity|].
  simpl. destruct (isspace c) eqn:E.
  - split; [exact IH1|]. simpl. rewrite (IH1 true). reflexivity.
  - split; [intros b|]; simpl; rewrite E; exact IH2.
Qed.

Lemma lstrip_single_spaced (y : str) (b : bool) :
  single_spaced b y = true ->
  single_spaced true (lstrip_by isspace y) = true.
Proof.
  revert b. induction y as [|c y IH]; intros b H; [reflexivity|].
  simpl in *. destruct (isspace c) eqn:E.
  - apply andb_true_iff in H. destruct H as [_ H]. apply (IH true H).
  - simpl. rewrite E. exact H.
Qed.

Lemma prefix_single_spaced (p q : str) (b : bool) :
  single_spaced b (p ++ q) = true -> single_spaced b p = true.
Proof.
  revert b. induction p as [|c p IH]; intros b H; [reflexivity|].
  simpl in *. destruct (isspace c).
  - apply andb_true_iff in H. destruct H as [H1 H2].
    rewrite H1. simpl. apply IH. exact H2.
  - apply IH. exact H.
Qed.

Lemma rstrip_prefix (p : ascii -> bool) (y : str) :
  exists ws, y = rstrip_by p y ++ ws.
Proof.
  unfold rstrip_by. destruct (lstrip_suffix p (rev y)) as [ws [H _]].
  exists (rev ws). rewrite <- rev_app_distr, <- H, rev_involutive.
  reflexivity.
Qed.

Lemma strip_collapse_tidy (x : str) : tidy (strip (Re.collapse_ws x)).
Proof.
  split; [|apply strip_by_trimmed].
  unfold strip, strip_by, Re.collapse_ws.
  destruct (collapse_single_spaced x) as [_ H].
  apply lstrip_single_spaced in H.
  destruct (rstrip_prefix isspace
              (lstrip_by isspace (Re.collapse_from false x))) as [ws Hws].
  rewrite Hws in H. apply prefix_single_spaced in H. exact H.
Qed.

Lemma In_collapse (c : ascii) (x : str) (b : bool) :
  In c (Re.collapse_from b x) -> c = " "%char \/ In c x.
Proof.
  revert b. induction x as [|d x IH]; intros b H; [contradiction|].
  simpl in H. destruct (isspace d).
  - destruct b.
    + destruct (IH _ H); [left | right; right]; assumption.
    + destruct H as [<- | H]; [left; reflexivity|].
      destruct (IH _ H); [left | right; right]; assumption.
  - destruct H as [<- | H]; [right; left; reflexivity|].
    destruct (IH _ H); [left | right; right]; assumption.
Qed.

Lemma span_no_paren_group (s g r : str) :
  Re.span_no_paren s = (g, r) -> no_paren g.
Proof.
  revert g r. induction s as [|c s IH]; intros g r H; simpl in H.
  - inversion H. intros x [].
  - destruct (Re.is_paren c) eqn:E.
    + inversion H. intros x [].
    + destruct (Re.span_no_paren s) as [g' r'] eqn:S.
      injection H as Hg Hr. subst g r. intros x [<- | Hx]; [exact E|].
      apply (IH g' r' eq_refl). exact Hx.
Qed.

Lemma pat_party_group (s g : str) : Re.pat_party s = Some g -> no_paren g.
Proof.
  unfold Re.pat_party. destruct s as [|c t]; [discriminate|].
  destruct (Ascii.eqb c "("); [|discriminate].
  destruct (Re.span_no_paren t) as [g' r] eqn:S.
  destruct r as [|d r']; [discriminate|].
  destruct (Ascii.eqb d ")"); [|discriminate].
  destruct (lstrip_by isspace r'); [|discriminate].
  intros H. inversion H; subst. apply (span_no_paren_group _ S).
Qed.

Lemma no_paren_normalized (g : str) :
  no_paren g -> no_paren (strip (Re.collapse_ws (strip g))).
Proof.
  intros H c Hc. apply In_strip_by, In_collapse in Hc.
  destruct Hc as [-> | Hc]; [reflexivity|].
  apply H. apply In_strip_by in Hc. exact Hc.
Qed.

(** X6: the candidate and the party that the cell parser yields have
    their white space normalized (words separated by single spaces,
    nothing at either end), and the party holds no parenthesis. *)
Theorem parse_candidate_tidy (cell : str) :
  let '(candidate, party, _) := parse_candidate cell in
  tidy candidate /\ tidy party /\ no_paren party.
Proof.
  unfold parse_candidate.
  destruct (Re.re_search Re.pat_party _) as [[before group1]|] eqn:E.
  - split; [apply strip_collapse_tidy|].
    split; [apply strip_collapse_tidy|].
    apply no_paren_normalized. apply re_search_some in E.
    destruct E as [t [_ [Hm _]]]. apply (pat_party_group _ Hm).
  - split; [apply strip_collapse_tidy|].
    split; [apply strip_collapse_tidy|]. intros c [].
Qed.

(** *** The reader: line ends and the choice of the encoding *)


Lemma read_text_with_fallback_inv (bs : Reader.bytes)
      (enc : Reader.encoding) (t : Reader.text) :
  Reader.read_text_with_fallback bs = Reader.ReturnInLoop enc t ->
  Reader.read_text enc bs = Some t
  /\ match enc with
     | Reader.utf_8_sig => True
     | Reader.cp1252 => Reader.read_text Reader.utf_8_sig bs = None
     | Reader.latin_1 =>
         Reader.read_text Reader.utf_8_sig bs = None
         /\ Reader.read_text Reader.cp1252 bs = None
     end.
Proof.
  unfold Reader.read_text_with_fallback. simpl.
  destruct (Reader.read_text Reader.utf_8_sig bs) as [u|] eqn:E1.
  - intros H. inversion H; subst. auto.
  - destruct (Reader.read_text Reader.cp1252 bs) as [u|] eqn:E2.
    + intros H. inversion H; subst. auto.
    + intros H. inversion H; subst. auto.
Qed.



Lemma cp1252_char_undefined (b : Byte.byte) :
  Reader.cp1252_char (Byte.to_N b) = None
  <-> In (Byte.to_N b) cp1252_undefined.
Proof.
  destruct b; vm_compute; split; intros H;
    try discriminate H; try tauto;
    repeat (destruct H as [H | H]; [discriminate H|]); contradiction.
Qed.

Lemma cp1252_decode_none (bs : Reader.bytes) :
  Reader.cp1252_decode bs = None <-> has_undefined_byte bs.
Proof.
  unfold has_undefined_byte. induction bs as [|x bs IH]; simpl.
  - split; [discriminate | intros [b [[] _]]].
  - destruct (Reader.cp1252_char (Byte.to_N x)) as [c|] eqn:E.
    + destruct (Reader.cp1252_decode bs) as [t|].
      * split; [discriminate|]. intros [b [[<- | Hb] Hu]].
        -- apply cp1252_char_undefined in Hu. congruence.
        -- destruct IH as [_ IH].
           assert (Some t = None) as H0 by (apply IH; eauto).
           discriminate H0.
      * split; [intros _ | reflexivity].
        destruct IH as [IH _]. destruct (IH eq_refl) as [b [Hb Hu]].
        exists b. auto.
    + split; [intros _ | reflexivity]. exists x.
      split; [left; reflexivity | apply cp1252_char_undefined; exact E].
Qed.

Lemma read_text_none (enc : Reader.encoding) (bs : Reader.bytes) :
  Reader.read_text enc bs = None <-> Reader.decode enc bs = None.
Proof.
  unfold Reader.read_text. destruct (Reader.decode enc bs); simpl;
    split; congruence.
Qed.

Lemma after_mark_short (bs : Reader.bytes) :
  List.length bs < 3 -> after_mark bs = bs.
Proof.
  unfold after_mark. intros H.
  destruct bs as [|x0 [|x1 [|x2 rest]]]; cbn [map firstn codes_eqb];
    rewrite ?andb_false_r; try reflexivity.
  simpl in H. lia.
Qed.

Lemma utf_8_sig_decode_readable (bs : Reader.bytes) :
  Reader.utf_8_sig_decode bs <> None <-> utf_8_sig_readable bs.
Proof.
  unfold utf_8_sig_readable, truncated_mark.
  destruct bs as [|x0 [|x1 [|x2 rest]]].
  - rewrite after_mark_short by (simpl; lia). simpl.
    split; [intros H; right; exact H | intros _; discriminate].
  - rewrite after_mark_short by (simpl; lia).
    unfold Reader.utf_8_sig_decode. cbn [map].
    destruct (N.eqb (Byte.to_N x0) 239) eqn:E0.
    + apply N.eqb_eq in E0. rewrite E0. split; [auto | discriminate].
    + apply N.eqb_neq in E0. split; [auto|].
      intros [[H | H] | H]; [congruence | discriminate H | exact H].
  - rewrite after_mark_short by (simpl; lia).
    unfold Reader.utf_8_sig_decode. cbn [map].
    destruct (N.eqb (Byte.to_N x0) 239) eqn:E0;
      destruct (N.eqb (Byte.to_N x1) 187) eqn:E1; cbn [andb].
    + apply N.eqb_eq in E0, E1. rewrite E0, E1.
      split; [auto | discriminate].
    + apply N.eqb_neq in E1. split; [auto|].
      intros [[H | H] | H]; [discriminate H | congruence | exact H].
    + apply N.eqb_neq in E0. split; [auto|].
      intros [[H | H] | H]; [discriminate H | congruence | exact H].
    + apply N.eqb_neq in E0. split; [auto|].
      intros [[H | H] | H]; [discriminate H | congruence | exact H].
  - unfold Reader.utf_8_sig_decode, after_mark.
    cbn [map firstn skipn codes_eqb]. rewrite andb_true_r, andb_assoc.
    destruct (N.eqb (Byte.to_N x0) 239 && N.eqb (Byte.to_N x1) 187
              && N.eqb (Byte.to_N x2) 191);
      (split; [auto|]); intros [[H | H] | H]; try discriminate H; exact H.
Qed.

(** X8: which encoding the reader settles on.  It returns the reading
    of the first encoding exactly for what that encoding accepts (valid
    UTF-8 after an optional byte-order mark, or a file that is only a
    mark cut short, read as empty); otherwise the code page 1252
    reading, unless some byte is one of the five that the code page
    leaves undefined, and only then the latin-1 reading. *)
Theorem reader_encoding_choice (bs : Reader.bytes)
        (enc : Reader.encoding) (t : Reader.text) :
  Reader.read_text_with_fallback bs = Reader.ReturnInLoop enc t ->
  match enc with
  | Reader.utf_8_sig => utf_8_sig_readable bs
  | Reader.cp1252 => ~ utf_8_sig_readable bs /\ ~ has_undefined_byte bs
  | Reader.latin_1 => ~ utf_8_sig_readable bs /\ has_undefined_byte bs
  end.
Proof.
  intros H. apply read_text_with_fallback_inv in H.
  destruct H as [Hr Hprev].
  assert (Reader.read_text Reader.utf_8_sig bs = None ->
          ~ utf_8_sig_readable bs) as Hno.
  { intros Hn Hu. apply (read_text_none Reader.utf_8_sig) in Hn.
    apply utf_8_sig_decode_readable in Hu. apply Hu. exact Hn. }
  destruct enc.
  - apply utf_8_sig_decode_readable. intros Hn.
    apply (read_text_none Reader.utf_8_sig) in Hn. congruence.
  - split; [apply Hno; exact Hprev|].
    intros Hu. apply cp1252_decode_none in Hu.
    apply (read_text_none Reader.cp1252) in Hu. congruence.
  - destruct Hprev as [H1 H2]. split; [apply Hno; exact H1|].
    apply cp1252_decode_none. apply (read_text_none Reader.cp1252).
    exact H2.
Qed.

Lemma reader_encoding_choice_witness :
  ~ utf_8_sig_readable [Byte.x41; Byte.xe9; Byte.x81]
  /\ has_undefined_byte [Byte.x41; Byte.xe9; Byte.x81].
Proof.
  apply (@reader_encoding_choice
           [Byte.x41; Byte.xe9; Byte.x81] Reader.latin_1 [65; 233; 129]%N).
  reflexivity.
Defined.

Lemma utf_8_decode_ascii (bs : Reader.bytes) :
  ascii_bytes bs ->
  Reader.utf_8_decode bs = Some (Reader.latin_1_decode bs).
Proof.
  unfold ascii_bytes. induction bs as [|x bs IH]; intros H; [reflexivity|].
  cbn [Reader.utf_8_decode].
  assert (Byte.to_N x < 128)%N as Hx by (apply H; left; reflexivity).
  apply N.ltb_lt in Hx. rewrite Hx.
  rewrite IH by (intros b Hb; apply H; right; exact Hb). reflexivity.
Qed.

Lemma utf_8_sig_decode_ascii (bs : Reader.bytes) :
  ascii_bytes bs ->
  Reader.utf_8_sig_decode bs = Some (Reader.latin_1_decode bs).
Proof.
  intros H. unfold Reader.utf_8_sig_decode.
  destruct bs as [|x0 rest0]; [reflexivity|].
  assert (Byte.to_N x0 < 128)%N as Hx by (apply H; left; reflexivity).
  assert (N.eqb (Byte.to_N x0) 239 = false) as E
      by (apply N.eqb_neq; lia).
  destruct rest0 as [|x1 [|x2 rest]]; rewrite E; cbn [andb];
    apply utf_8_decode_ascii; exact H.
Qed.

(** X9: a file of ASCII bytes is read as it stands: the reader returns
    at the first encoding, and the text is the bytes themselves with
    the line ends translated. *)
Theorem reader_ascii_verbatim (bs : Reader.bytes) :
  ascii_bytes bs ->
  Reader.read_text_with_fallback bs
  = Reader.ReturnInLoop Reader.utf_8_sig
      (Reader.universal_newlines (Reader.latin_1_decode bs)).
Proof.
  intros H. unfold Reader.read_text_with_fallback. simpl.
  unfold Reader.read_text at 1. simpl Reader.decode.
  rewrite (utf_8_sig_decode_ascii H). reflexivity.
Qed.

Lemma reader_ascii_verbatim_witness :
  Reader.read_text_with_fallback [Byte.x48; Byte.x0d; Byte.x0a; Byte.x69]
  = Reader.ReturnInLoop Reader.utf_8_sig [72; 10; 105]%N.
Proof.
  apply (@reader_ascii_verbatim [Byte.x48; Byte.x0d; Byte.x0a; Byte.x69]).
  intros b [<- | [<- | [<- | [<- | []]]]]; reflexivity.
Defined.

(** *** The pivoted-legacy extractor: rows skipped, rows emitted *)

Lemma strip_blank (c : str) : forallb isspace c = true -> strip c = [].
Proof.
  intros H. unfold strip, strip_by, rstrip_by.
  rewrite (lstrip_all isspace c H). reflexivity.
Qed.

Lemma legacy_step_blank (st : legacy_state) (row : csv_row) :
  blank_csv_row row = true -> legacy_step st row = st.
Proof.
  intros H. unfold legacy_step.
  assert (existsb truthy (map strip row) = false) as E.
  { unfold blank_csv_row in H. induction row as [|c row IH]; [reflexivity|].
    simpl in H. apply andb_true_iff in H. destruct H as [Hc H].
    simpl. rewrite (strip_blank c Hc). simpl. apply IH. exact H. }
  rewrite E. reflexivity.
Qed.

(** X10: blank rows are invisible to the pivoted-legacy extractor: a
    row whose cells are all empty or white space can be taken out of the
    file at any place without changing the rows produced. *)
Theorem legacy_skips_blank_rows (before after : list csv_row)
        (row : csv_row) :
  blank_csv_row row = true ->
  convert_csv_style_file (before ++ row :: after)
  = convert_csv_style_file (before ++ after).
Proof.
  intros H. unfold convert_csv_style_file.
  rewrite !fold_left_app. simpl. rewrite (legacy_step_blank _ row H).
  reflexivity.
Qed.

Lemma legacy_skips_blank_rows_witness :
  convert_csv_style_file
    ([[lit "Governor - Vote For One"]] ++ [lit " "; lit ""] :: tl governor_csv)
  = convert_csv_style_file
      ([[lit "Governor - Vote For One"]] ++ tl governor_csv).
Proof. apply legacy_skips_blank_rows. reflexivity. Defined.

Lemma legacy_step_no_office (st : legacy_state) (row : csv_row) :
  announces_office row = false ->
  cur_office st = None /\ rows_out st = [] ->
  cur_office (legacy_step st row) = None
  /\ rows_out (legacy_step st row) = [].
Proof.
  unfold announces_office, legacy_step. intros Hm [Ho Hr].
  destruct (negb (existsb truthy (map strip row))); [auto|].
  rewrite Hm, Ho. simpl. rewrite andb_false_r. simpl. auto.
Qed.

(** X11: without an office there are no rows: a file in which no row
    announces an office (no first cell with a Vote For marker and at
    most one other filled cell) yields nothing, whatever else it
    holds. *)
Theorem legacy_needs_office (rows : list csv_row) :
  (forall row, In row rows -> announces_office row = false) ->
  convert_csv_style_file rows = [].
Proof.
  intros H. unfold convert_csv_style_file.
  assert (forall l st,
             incl l rows ->
             cur_office st = None /\ rows_out st = [] ->
             cur_office (fold_left legacy_step l st) = None
             /\ rows_out (fold_left legacy_step l st) = []) as Hfold.
  { induction l as [|row l IH]; intros st Hl Hst; [exact Hst|].
    simpl. apply IH; [intros x Hx; apply Hl; right; exact Hx|].
    apply legacy_step_no_office; [|exact Hst].
    apply H, Hl. left. reflexivity. }
  apply (Hfold rows legacy_init); [apply incl_refl | split; reflexivity].
Qed.

Lemma legacy_needs_office_witness :
  convert_csv_style_file (tl governor_csv) = [].
Proof.
  apply legacy_needs_office.
  intros row [<- | [<- | []]]; reflexivity.
Defined.

Lemma header_cell_named (cell : str) : Forall header_named (header_cell cell).
Proof.
  unfold header_cell. destruct (negb (truthy (strip cell))); [constructor|].
  destruct (parse_candidate (strip cell)) as [[c p] w].
  destruct c as [|a c]; simpl; [constructor|].
  constructor; [discriminate | constructor].
Qed.

Lemma emit_vote_shape (c o : str) (row : csv_row)
      (entry : nat * candidate_header) :
  o <> [] -> header_named (snd entry) ->
  Forall (fun r => county_level r /\ office r <> [])
         (emit_vote c o row entry).
Proof.
  destruct entry as [idx [[cand p] w]]. simpl. intros Ho Hc.
  destruct (List.length row <=? idx); [constructor|].
  destruct (clean_vote_cell _); [|constructor].
  destruct (Py.int _); [|constructor].
  constructor; [|constructor]. unfold county_level. simpl. auto.
Qed.

Lemma legacy_step_shape (st : legacy_state) (row : csv_row) :
  legacy_shape_inv st -> legacy_shape_inv (legacy_step st row).
Proof.
  intros [Hr Hc]. unfold legacy_step.
  destruct (negb (existsb truthy (map strip row))); [split; assumption|].
  destruct (is_marker_row _ _); [split; [assumption | constructor]|].
  destruct (negb (truthy _) && office_truthy _).
  { split; [assumption|]. simpl. apply Forall_flat_map.
    intros a _. apply header_cell_named. }
  destruct (office_truthy (cur_office st) && _ && _) eqn:Eall;
    [|split; assumption].
  apply andb_true_iff in Eall. destruct Eall as [Eall _].
  apply andb_true_iff in Eall. destruct Eall as [Eo _].
  split; [|assumption]. simpl. apply Forall_app. split; [assumption|].
  apply Forall_flat_map. intros [i e] Hin. apply emit_vote_shape.
  - destruct (cur_office st) as [[|a o]|]; simpl in *; discriminate.
  - simpl. apply enumerate1_In in Hin.
    rewrite Forall_forall in Hc. apply Hc. exact Hin.
Qed.

(** X12: every row of the pivoted-legacy extractor is a county-level
    row with its office and candidate filled in: precinct and district
    are empty, office and candidate are not. *)
Theorem legacy_rows_shape (rows : list csv_row) :
  Forall (fun r => county_level r /\ office r <> [])
         (convert_csv_style_file rows).
Proof.
  unfold convert_csv_style_file.
  assert (forall l st, legacy_shape_inv st ->
                       legacy_shape_inv (fold_left legacy_step l st)) as H.
  { induction l as [|row l IH]; intros st Hst; [exact Hst|].
    simpl. apply IH, legacy_step_shape, Hst. }
  apply (H rows legacy_init). split; constructor.
Qed.

(** *** The pipe-delimited extractor *)

Lemma split_on_length (sep : ascii) (s : str) :
  List.length (split_on sep s) = S (count_char sep s).
Proof.
  unfold count_char. induction s as [|c s IH]; [reflexivity|].
  simpl. rewrite (Ascii.eqb_sym sep c).
  destruct (Ascii.eqb c sep).
  - simpl. rewrite IH. reflexivity.
  - destruct (split_on sep s) as [|h r]; simpl in *; [discriminate|].
    exact IH.
Qed.

Lemma count_char_rstrip (p : ascii -> bool) (c : ascii) (s : str) :
  count_char c (rstrip_by p s) <= count_char c s.
Proof.
  destruct (rstrip_prefix p s) as [ws H]. rewrite H at 2.
  unfold count_char. rewrite filter_app, length_app. lia.
Qed.

Lemma pipe_line_short (line : str) :
  count_char "|" line < 9 -> pipe_line line = [].
Proof.
  intros H. unfold pipe_line.
  destruct (negb (truthy _)); [reflexivity|].
  rewrite length_map, split_on_length.
  pose proof (count_char_rstrip (Ascii.eqb newline) "|" line) as Hc.
  destruct (Nat.ltb_spec
              (S (count_char "|" (rstrip_by (Ascii.eqb newline) line))) 10)
    as [_ | Hge]; [reflexivity | lia].
Qed.

(** X13: short lines are invisible to the pipe-delimited extractor: a
    line with fewer than nine separators has fewer than ten fields and
    can be taken out of the file at any place without changing the rows
    produced. *)
Theorem pipe_skips_short_lines (before after : list str) (line : str) :
  count_char "|" line < 9 ->
  convert_pipe_style_file (before ++ line :: after)
  = convert_pipe_style_file (before ++ after).
Proof.
  intros H. unfold convert_pipe_style_file.
  rewrite !flat_map_app. simpl. rewrite (pipe_line_short line H).
  reflexivity.
Qed.

Lemma pipe_skips_short_lines_witness :
  convert_pipe_style_file ([] ++ lit "Governor|x|Somerset|Doe|7" :: [])
  = convert_pipe_style_file ([] ++ []).
Proof. apply pipe_skips_short_lines. vm_compute. lia. Defined.

Lemma str_eqb_neq (a b : str) : str_eqb a b = false -> a <> b.
Proof. intros H E. apply str_eqb_eq in E. congruence. Qed.

Lemma pipe_line_shape (line : str) :
  List.length (pipe_line line) <= 1
  /\ Forall (fun r => county_level r /\ party r <> NULL) (pipe_line line).
Proof.
  unfold pipe_line.
  destruct (negb (truthy _)); [split; [simpl; lia | constructor]|].
  destruct (List.length _ <? 10); [split; [simpl; lia | constructor]|].
  destruct (str_eqb _ [] || _); [split; [simpl; lia | constructor]|].
  destruct (Py.int _); [|split; [simpl; lia | constructor]].
  split; [simpl; lia|]. constructor; [|constructor].
  unfold county_level. cbn [candidate party precinct district].
  repeat split.
  - match goal with |- context [if ?b then lit "Other Write-Ins" else _] =>
      destruct b end; [discriminate|].
    match goal with |- context [if ?b then lit "Unknown" else ?c] =>
      destruct b eqn:E end; [discriminate|].
    apply negb_false_iff in E.
    match goal with |- ?c <> [] => destruct c; [discriminate E|] end.
    discriminate.
  - match goal with |- context [str_eqb ?p NULL] =>
      destruct (str_eqb p NULL) eqn:E end;
      [discriminate | apply str_eqb_neq; exact E].
Qed.

(** X14: every row of the pipe-delimited extractor is a county-level
    row with a candidate: precinct and district are empty, the
    candidate is not (it falls back to Unknown), and the party is never
    the NULL token.  Each line yields at most one row. *)
Theorem pipe_rows_shape (lines : list str) :
  Forall (fun r => county_level r /\ party r <> NULL)
         (convert_pipe_style_file lines)
  /\ List.length (convert_pipe_style_file lines) <= List.length lines.
Proof.
  unfold convert_pipe_style_file. split.
  - apply Forall_flat_map. intros l _. apply pipe_line_shape.
  - induction lines as [|l lines IH]; simpl; [lia|].
    rewrite length_app.
    pose proof (proj1 (pipe_line_shape l)). lia.
Qed.

(** X15: the write-in code wins over the name fields: a row that comes
    from a line whose last-name field is zz998 in any letter case has
    the candidate Other Write-Ins, whatever the first and middle name
    fields hold. *)
Theorem pipe_write_in_code (line : str) (r : Row) :
  lower (pipe_last_name line) = lit "zz998" ->
  In r (pipe_line line) -> candidate r = lit "Other Write-Ins".
Proof.
  unfold pipe_line. fold (pipe_last_name line). intros H.
  destruct (negb (truthy _)); [contradiction|].
  destruct (List.length _ <? 10); [contradiction|].
  destruct (str_eqb _ [] || _); [contradiction|].
  destruct (Py.int _); [|contradiction].
  intros [<- | []]. cbn [candidate]. rewrite H.
  rewrite (str_eqb_refl (lit "zz998")), orb_true_r. reflexivity.
Qed.

Lemma pipe_write_in_code_witness :
  candidate (mkRow (lit "A") [] (lit "Gov") [] []
                   (lit "Other Write-Ins") 12 [])
  = lit "Other Write-Ins".
Proof.
  apply (@pipe_write_in_code (lit "Gov|x|A|ZZ998|M|Jane|\N|0|x|12")).
  - reflexivity.
  - left. reflexivity.
Defined.

(** *** The modern extractor: known county codes, rows per file *)

Lemma county_code_entry (k v : string) :
  code_entry k v ->
  normalize_county (table_get COUNTY_CODE_TO_NAME (lit k) (lit k)) = lit v.
Proof.
  unfold code_entry, COUNTY_CODE_TO_NAME. intros H.
  repeat (destruct H as [H | H];
          [injection H as <- <-; vm_compute; reflexivity|]).
  contradiction.
Qed.

(** X16: a known county code gives the county its name: when the
    County Name cell is empty and the County code, zero-padded to two
    digits, is one of the 24 codes of the table, the county field is the
    name that the table holds for it. *)
Theorem modern_known_county_code (vote_columns : list str) (d : dict_row)
        (k v : string) :
  strip (get_or_empty d "County Name") = [] ->
  zfill 2 (strip (get_or_empty d "County")) = lit k ->
  code_entry k v ->
  county (modern_row vote_columns d) = lit v.
Proof.
  intros Hname Hcode He.
  rewrite modern_row_county, Hname, Hcode. simpl negb. cbv iota.
  apply county_code_entry. exact He.
Qed.

Lemma modern_known_county_code_witness :
  county (modern_row [] (make_dict [lit "County"] [lit " 7 "]))
  = lit "Carroll".
Proof.
  apply (@modern_known_county_code [] _ "07" "Carroll").
  - reflexivity.
  - reflexivity.
  - unfold code_entry. simpl. tauto.
Defined.

Lemma detect_modern_header (rows : list csv_row) :
  detect_csv_format rows = modern ->
  exists fieldnames data, rows = fieldnames :: data /\ fieldnames <> [].
Proof.
  destruct rows as [|[|h fs] data]; try (vm_compute; discriminate).
  intros _. exists (h :: fs), data. split; [reflexivity | discriminate].
Qed.

(** X17: a file that goes to the modern extractor yields one output
    row for each non-blank row after its header: the early return for a
    missing header cannot be taken there, since a header that selects
    the modern extractor is not empty. *)
Theorem modern_file_row_count (f : source_file) :
  lower (suffix f) <> lit ".txt" ->
  detect_csv_format (file_rows f) = modern ->
  List.length (convert_file f)
  = List.length (filter (fun row => negb (is_blank_row row))
                        (tl (file_rows f))).
Proof.
  intros Hs Hd. unfold convert_file.
  destruct (str_eqb (lower (suffix f)) (lit ".txt")) eqn:E;
    [apply str_eqb_eq in E; contradiction|].
  rewrite Hd. destruct (detect_modern_header _ Hd) as [fs [data [-> Hne]]].
  simpl tl. apply modern_emits_every_row. exact Hne.
Qed.

Lemma modern_file_row_count_witness :
  List.length (convert_file sample_modern) = 1.
Proof.
  apply (@modern_file_row_count sample_modern).
  - vm_compute. discriminate.
  - reflexivity.
Defined.

(** *** Output file names *)

Lemma digit_facts (c : ascii) :
  is_digit c = true ->
  int_space c = false /\ Ascii.eqb c "-" = false /\ Ascii.eqb c "+" = false
  /\ (0 <= digit_value c <= 9)%Z.
Proof.
  destruct c as [[] [] [] [] [] [] [] []]; vm_compute;
    intros H; try discriminate H; repeat split; discriminate.
Qed.

Lemma digit_value_inj (a b : ascii) :
  digit_value a = digit_value b -> a = b.
Proof.
  unfold digit_value, code. intros H.
  assert (N_of_ascii a = N_of_ascii b) as E by lia.
  rewrite <- (ascii_N_embedding a), <- (ascii_N_embedding b), E.
  reflexivity.
Qed.

Lemma int_four_digits (a b c d : ascii) :
  is_digit a = true -> is_digit b = true ->
  is_digit c = true -> is_digit d = true ->
  Py.int [a; b; c; d]
  = Some (1000 * digit_value a + 100 * digit_value b
          + 10 * digit_value c + digit_value d)%Z.
Proof.
  intros Ha Hb Hc Hd.
  destruct (digit_facts a Ha) as [Hs [Hm [Hp _]]].
  unfold Py.int. cbn [lstrip_by]. rewrite Hs, Hm, Hp.
  unfold Py.int_unsigned. cbn [Py.scan_digits filter].
  rewrite Ha, Hb, Hc, Hd. cbn [Py.scan_finish lstrip_by].
  change (N.ltb Py.int_max_str_digits
                (N.of_nat (List.length [a; b; c; d]))) with false.
  cbv iota. f_equal. lia.
Qed.

Lemma four_digits_inj (g g' : str) (y : Z) :
  four_digits g -> four_digits g' ->
  Py.int g = Some y -> Py.int g' = Some y -> g = g'.
Proof.
  intros [Hl Hd] [Hl' Hd'].
  destruct g as [|a [|b [|c [|d [|]]]]]; try discriminate Hl.
  destruct g' as [|a' [|b' [|c' [|d' [|]]]]]; try discriminate Hl'.
  cbn [forallb] in Hd, Hd'.
  repeat match goal with
         | H : _ && _ = true |- _ =>
             apply andb_true_iff in H; destruct H
         end.
  rewrite !int_four_digits by assumption. intros E E'.
  assert ((1000 * digit_value a + 100 * digit_value b
           + 10 * digit_value c + digit_value d)%Z
          = (1000 * digit_value a' + 100 * digit_value b'
             + 10 * digit_value c' + digit_value d')%Z) as EE
      by congruence.
  clear E E'.
  repeat match goal with
         | H : is_digit ?x = true |- _ =>
             apply digit_facts in H; destruct H as [_ [_ [_ H]]]
         end.
  f_equal; [|f_equal; [|f_equal; [|f_equal]]];
    apply digit_value_inj; lia.
Qed.

Lemma pat_input_name_inv (name g : str) :
  pat_input_name name = Some g -> g = firstn 4 name /\ four_digits g.
Proof.
  unfold pat_input_name.
  destruct name as [|d1 [|d2 [|d3 [|d4 rest]]]]; try discriminate.
  destruct (is_digit d1 && is_digit d2 && is_digit d3 && is_digit d4) eqn:E;
    [|discriminate].
  destruct (Re.ws_plus _ rest); [|discriminate].
  intros H. injection H as <-. split; [reflexivity|].
  split; [reflexivity|]. cbn [forallb]. rewrite andb_true_r.
  rewrite <- !andb_assoc in E. exact E.
Qed.

Lemma election_date_starts_with_year (y : Z) (date g : str) :
  year_get YEAR_TO_ELECTION_DATE y = Some date ->
  four_digits g -> Py.int g = Some y ->
  exists mmdd, four_digits mmdd /\ date = g ++ mmdd.
Proof.
  unfold YEAR_TO_ELECTION_DATE. cbn [year_get]. intros H Hg Hi.
  repeat match type of H with
         | (if Z.eqb ?k y then Some (lit ?d) else _) = _ =>
             let E := fresh "E" in
             destruct (Z.eqb k y) eqn:E;
             [apply Z.eqb_eq in E; subst y; injection H as <-;
              exists (skipn 4 (lit d));
              split; [split; reflexivity|];
              rewrite (@four_digits_inj g (firstn 4 (lit d)) _ Hg
                         (conj eq_refl eq_refl) Hi eq_refl);
              reflexivity|]
         end.
  discriminate H.
Qed.

Lemma build_output_name_inv (name out : str) :
  build_output_name name = inr out ->
  exists g date year,
    pat_input_name name = Some g /\ four_digits g /\ g = firstn 4 name
    /\ Py.int g = Some year
    /\ year_get YEAR_TO_ELECTION_DATE year = Some date
    /\ (exists mmdd, four_digits mmdd /\ date = g ++ mmdd)
    /\ out = date ++ output_suffix.
Proof.
  unfold build_output_name.
  destruct (pat_input_name name) as [g|] eqn:P; [|discriminate].
  destruct (pat_input_name_inv _ P) as [Hg H4].
  destruct (Py.int g) as [y|] eqn:I; [|discriminate].
  destruct (year_get YEAR_TO_ELECTION_DATE y) as [date|] eqn:Y;
    [|discriminate].
  destruct (truthy date); [|discriminate].
  intros H. injection H as <-. exists g, date, y.
  repeat split; try assumption; try reflexivity; try apply H4.
  apply (@election_date_starts_with_year y date g Y H4 I).
Qed.

(** X18: an output name keeps the year of the input name: whenever
    [build_output_name] succeeds, the input name passes the test that
    [main] applies, and the result is four decimal digits that read as
    the same year number as the first four characters of the input
    name, four more digits, and the fixed ending. *)
Theorem build_output_name_shape (name out : str) :
  build_output_name name = inr out ->
  is_input_name name = true
  /\ exists year yyyy mmdd,
      Py.int (firstn 4 name) = Some year
      /\ four_digits yyyy /\ Py.int yyyy = Some year
      /\ four_digits mmdd
      /\ out = yyyy ++ mmdd ++ output_suffix.
Proof.
  intros H. apply build_output_name_inv in H.
  destruct H as [g [date [y [P [H4 [Hg [I [_ [[mmdd [Hm Hd]] Ho]]]]]]]]].
  split; [unfold is_input_name; rewrite P; reflexivity|].
  exists y, g, mmdd. rewrite <- Hg.
  repeat split; try assumption; try apply H4; try apply Hm.
  rewrite Ho, Hd, <- app_assoc. reflexivity.
Qed.

Lemma build_output_name_shape_witness :
  is_input_name (lit "2020 general ELECTION.TXT") = true
  /\ exists year yyyy mmdd,
      Py.int (firstn 4 (lit "2020 general ELECTION.TXT")) = Some year
      /\ four_digits yyyy /\ Py.int yyyy = Some year
      /\ four_digits mmdd
      /\ lit "20201103__md__general__county.csv"
         = yyyy ++ mmdd ++ output_suffix.
Proof.
  apply (@build_output_name_shape (lit "2020 general ELECTION.TXT")).
  reflexivity.
Defined.

Lemma firstn_exact (A : Type) (n : nat) (g r : list A) :
  List.length g = n -> firstn n (g ++ r) = g.
Proof.
  intros <-. rewrite firstn_app, Nat.sub_diag, firstn_all.
  simpl. apply app_nil_r.
Qed.

(** X19: the output name depends on the year alone: two input names
    for which [build_output_name] succeeds get the same output name
    exactly when their first four characters read as the same year
    number, so the csv and the txt file of one year share an output
    file and files of different years never do. *)
Theorem build_output_name_by_year (a b oa ob : str) :
  build_output_name a = inr oa ->
  build_output_name b = inr ob ->
  (oa = ob <-> Py.int (firstn 4 a) = Py.int (firstn 4 b)).
Proof.
  intros Ha Hb.
  apply build_output_name_inv in Ha, Hb.
  destruct Ha as [ga [da [ya [Pa [[La Fa] [Ga [Ia [Ya [[ma [_ Da]] Oa]]]]]]]]].
  destruct Hb as [gb [db [yb [Pb [[Lb Fb] [Gb [Ib [Yb [[mb [_ Db]] Ob]]]]]]]]].
  rewrite <- Ga, <- Gb. split.
  - intros E.
    assert (firstn 4 oa = ga) as Ea
        by (rewrite Oa, Da, <- app_assoc; apply firstn_exact; exact La).
    assert (firstn 4 ob = gb) as Eb
        by (rewrite Ob, Db, <- app_assoc; apply firstn_exact; exact Lb).
    rewrite <- Ea, <- Eb, E. reflexivity.
  - intros E. rewrite Ia, Ib in E. injection E as E. subst yb.
    rewrite Ya in Yb. injection Yb as Yb. subst db.
    rewrite Oa, Ob. reflexivity.
Qed.

Lemma build_output_name_by_year_witness :
  lit "20201103__md__general__county.csv"
  = lit "20201103__md__general__county.csv"
  <-> Py.int (firstn 4 (lit "2020 General Election.csv"))
      = Py.int (firstn 4 (lit "2020 General Election.txt")).
Proof.
  apply (@build_output_name_by_year
           (lit "2020 General Election.csv")
           (lit "2020 General Election.txt")); reflexivity.
Defined.

(** X20: from [main] only a missing date can stop a file: for a name
    that passes the name test of [main], [build_output_name] either
    succeeds or fails for want of an election date for the year; it
    fails neither on the name format nor on reading the year. *)
Theorem build_output_name_from_main (name : str) :
  is_input_name name = true ->
  (exists out, build_output_name name = inr out)
  \/ (exists year,
         build_output_name name = inl (No_election_date_mapping year)
         /\ year_get YEAR_TO_ELECTION_DATE year = None).
Proof.
  unfold is_input_name, build_output_name.
  destruct (pat_input_name name) as [g|] eqn:P; [|discriminate].
  intros _. destruct (pat_input_name_inv _ P) as [_ [Hl Hd]].
  destruct g as [|a [|b [|c [|d [|]]]]]; try discriminate Hl.
  cbn [forallb] in Hd.
  repeat match goal with
         | H : _ && _ = true |- _ =>
             apply andb_true_iff in H; destruct H
         end.
  rewrite int_four_digits by assumption.
  match goal with |- context [year_get _ ?y] => set (year := y) end.
  destruct (year_get YEAR_TO_ELECTION_DATE year) as [date|] eqn:Y.
  - left. assert (truthy date = true) as T.
    { clear -Y. unfold YEAR_TO_ELECTION_DATE in Y. cbn [year_get] in Y.
      repeat match type of Y with
             | (if ?b then _ else _) = _ =>
                 destruct b; [injection Y as <-; reflexivity|]
             end.
      discriminate Y. }
    rewrite T. eauto.
  - right. exists year. auto.
Qed.

Lemma build_output_name_from_main_witness :
  (exists out, build_output_name (lit "2004 General Election.csv") = inr out)
  \/ (exists year,
         build_output_name (lit "2004 General Election.csv")
         = inl (No_election_date_mapping year)
         /\ year_get YEAR_TO_ELECTION_DATE year = None).
Proof.
  apply (@build_output_name_from_main (lit "2004 General Election.csv")).
  reflexivity.
Defined.

(** *** The candidate cell parser: reading back a header cell *)

Lemma single_spaced_no_lead (s : str) :
  single_spaced true s = true -> no_lead isspace s.
Proof.
  destruct s as [|c s]; simpl; [auto|].
  destruct (isspace c); [|reflexivity].
  rewrite andb_false_r. simpl. discriminate.
Qed.

Lemma collapse_single_spaced_id (s : str) :
  forall pb b,
    single_spaced pb s = true ->
    (b = true -> no_lead isspace s) ->
    Re.collapse_from b s = s.
Proof.
  induction s as [|c s IH]; intros pb b H Hb; [reflexivity|].
  simpl in *. destruct (isspace c) eqn:E.
  - apply andb_true_iff in H. destruct H as [H Hs].
    apply andb_true_iff in H. destruct H as [Hc _].
    apply Ascii.eqb_eq in Hc. subst c.
    destruct b; [specialize (Hb eq_refl); discriminate|].
    f_equal. apply (IH true true Hs). intros _.
    apply single_spaced_no_lead. exact Hs.
  - f_equal. apply (IH false false H). discriminate.
Qed.

Lemma tidy_fixed (s : str) :
  tidy s -> strip (Re.collapse_ws (strip s)) = s.
Proof.
  intros [Hs Hr].
  assert (strip s = s) as E
      by (apply strip_by_fix; split;
          [apply single_spaced_no_lead; exact Hs | exact Hr]).
  rewrite E. unfold Re.collapse_ws.
  rewrite (@collapse_single_spaced_id s true false Hs) by discriminate.
  exact E.
Qed.

Lemma span_no_paren_stop (g r : str) :
  no_paren g -> Re.span_no_paren (g ++ ")"%char :: r) = (g, ")"%char :: r).
Proof.
  induction g as [|c g IH]; intros H; [reflexivity|].
  simpl. rewrite (H c) by (left; reflexivity).
  rewrite IH by (intros x Hx; apply H; right; exact Hx). reflexivity.
Qed.

Lemma re_search_party (before party : str) :
  no_paren before -> no_paren party ->
  Re.re_search Re.pat_party (before ++ "("%char :: party ++ lit ")")
  = Some (before, party).
Proof.
  intros Hb Hp. apply re_search_intro.
  - unfold Re.pat_party. simpl Ascii.eqb. cbv iota.
    change (lit ")") with [")"%char].
    rewrite (span_no_paren_stop [] Hp). reflexivity.
  - intros p1 p2 E Hne. destruct p2 as [|c p2]; [congruence|].
    simpl. destruct (Ascii.eqb c "(") eqn:Ec; [|reflexivity].
    apply Ascii.eqb_eq in Ec. subst c.
    assert (Re.is_paren "(" = false) as F.
    { apply Hb. rewrite E. apply in_or_app. right. left. reflexivity. }
    discriminate F.
Qed.

Lemma rstrip_drop_space (x : str) :
  no_lead isspace (rev x) -> rstrip (x ++ lit " ") = x.
Proof.
  intros H. unfold rstrip, rstrip_by. rewrite rev_app_distr. simpl.
  rewrite (lstrip_no_lead isspace (rev x) H). apply rev_involutive.
Qed.

Lemma header_text_parts (name party : str) :
  plain_name name -> tidy party -> no_paren party ->
  let text := header_text name party in
  strip_quote (strip text) = text
  /\ endswith (lit " Winner") text = false
  /\ Re.re_search Re.pat_party text = Some (name ++ lit " ", party)
  /\ strip (Re.collapse_ws (strip (name ++ lit " "))) = name
  /\ strip (Re.collapse_ws (strip party)) = party.
Proof.
  intros [Hne [[Hs Hr] [Hnp Hq]]] Hparty Hpp text.
  assert (no_lead isspace name) as Hl by (apply single_spaced_no_lead, Hs).
  assert (text = (name ++ lit " (" ++ party) ++ lit ")") as Et.
  { unfold text, header_text. rewrite <- !app_assoc. reflexivity. }
  assert (trimmed isspace text) as Tw.
  { split; [apply no_lead_app; assumption|].
    rewrite Et, rev_app_distr. reflexivity. }
  assert (trimmed is_quote text) as Tq.
  { split; [apply no_lead_app; assumption|].
    rewrite Et, rev_app_distr. reflexivity. }
  split; [rewrite (strip_trimmed Tw); apply (strip_quote_trimmed Tq)|].
  split; [unfold endswith; rewrite Et, rev_app_distr; reflexivity|].
  split.
  - unfold text, header_text.
    change (lit " (" ++ party ++ lit ")")
      with (lit " " ++ "("%char :: party ++ lit ")").
    rewrite app_assoc. apply re_search_party; [|exact Hpp].
    intros c Hc. apply in_app_or in Hc. destruct Hc as [Hc | [<- | []]];
      [apply Hnp; exact Hc | reflexivity].
  - split; [|apply tidy_fixed; exact Hparty].
    assert (strip (name ++ lit " ") = name) as E.
    { unfold strip, strip_by.
      rewrite (lstrip_no_lead isspace (name ++ lit " "))
        by (apply no_lead_app; assumption).
      apply rstrip_drop_space. exact Hr. }
    rewrite E. unfold Re.collapse_ws.
    rewrite (@collapse_single_spaced_id name true false Hs) by discriminate.
    apply strip_by_fix. split; assumption.
Qed.

Lemma header_text_winner (name party : str) :
  plain_name name ->
  let cell := header_text name party ++ lit " Winner" in
  strip_quote (strip cell) = cell
  /\ endswith (lit " Winner") cell = true
  /\ rstrip (firstn (List.length cell - 7) cell) = header_text name party.
Proof.
  intros [Hne [[Hs Hr] [Hnp Hq]]] cell.
  assert (no_lead isspace name) as Hl by (apply single_spaced_no_lead, Hs).
  assert (header_text name party <> []) as Hh
      by (unfold header_text; destruct name; [congruence | discriminate]).
  assert (trimmed isspace cell) as Tw.
  { unfold cell, header_text. split.
    - rewrite <- app_assoc. apply no_lead_app; assumption.
    - rewrite rev_app_distr. reflexivity. }
  assert (trimmed is_quote cell) as Tq.
  { unfold cell, header_text. split.
    - rewrite <- app_assoc. apply no_lead_app; assumption.
    - rewrite rev_app_distr. reflexivity. }
  split; [rewrite (strip_trimmed Tw); apply (strip_quote_trimmed Tq)|].
  split; [apply endswith_spec; exists (header_text name party);
          reflexivity|].
  unfold cell. rewrite length_app. simpl List.length at 2.
  rewrite Nat.add_sub, firstn_exact by reflexivity.
  unfold rstrip, rstrip_by. rewrite lstrip_no_lead; [apply rev_involutive|].
  unfold header_text. rewrite !app_assoc, rev_app_distr. reflexivity.
Qed.

(** X21: the cell parser reads back what a header cell spells: for a
    name that is not empty, has its white space normalized, holds no
    parenthesis and does not begin with a quote, and a party with
    normalized white space and no parenthesis, the cell made of the
    name, a space and the party in parentheses parses to that name and
    that party, not a winner; with a space and Winner after it, to the
    same name and party, winner TRUE. *)
Theorem parse_candidate_header_text (name party : str) :
  plain_name name -> tidy party -> no_paren party ->
  parse_candidate (header_text name party) = (name, party, [])
  /\ parse_candidate (header_text name party ++ lit " Winner")
     = (name, party, lit "TRUE").
Proof.
  intros Hn Ht Hp.
  destruct (header_text_parts Hn Ht Hp) as [E1 [E2 [E3 [E4 E5]]]].
  destruct (header_text_winner party Hn) as [W1 [W2 W3]].
  split; unfold parse_candidate.
  - rewrite E1, E2, E3, E4, E5. reflexivity.
  - rewrite W1, W2, W3, E3, E4, E5. reflexivity.
Qed.

Lemma parse_candidate_header_text_witness :
  parse_candidate (header_text (lit "John Q. Smith") (lit "DEM"))
  = (lit "John Q. Smith", lit "DEM", [])
  /\ parse_candidate
       (header_text (lit "John Q. Smith") (lit "DEM") ++ lit " Winner")
     = (lit "John Q. Smith", lit "DEM", lit "TRUE").
Proof.
  apply parse_candidate_header_text.
  - split; [discriminate|]. split; [split; reflexivity|].
    split; [|reflexivity].
    intros c Hc. vm_compute in Hc.
    repeat (destruct Hc as [<- | Hc]; [reflexivity|]). contradiction.
  - split; reflexivity.
  - intros c Hc. vm_compute in Hc.
    repeat (destruct Hc as [<- | Hc]; [reflexivity|]). contradiction.
Defined.
